(** * Reward system: the coin ledger of the user router and the Discord
      thumbnail resolver.

    Sources embedded here:
    - [packages/api/src/router/user.ts]: the tRPC procedures
      [sendCoinsByUserId], [sendCoinsByGithubId] and [payCoinsByUserId]
      together with the catch block they share;
    - [packages/auth/src/auth-options.ts]: the [profile] callback of the
      Discord provider;
    - the [give-coins] slash command of the bot.

    Conventions.  A JavaScript string is held as its UTF-8 bytes.  What
    [parseInt] returns is a [Js.number]: [NaN], an infinity, or an integer
    rounded to the nearest double.  An amount that reached the router as a
    number is a [Z]; fractional amounts and the range of the database
    integer column are outside the model.  The store primitives of [Store]
    say what a Prisma call does to the table when the store answers it;
    [Runtime] runs the procedures with calls that the store may fail and
    with other requests writing between two calls.  A localised message
    [i18n.t(key)] is represented by its key. *)

From Stdlib Require Import ZArith List String Ascii Bool Lia DecimalString.
Import ListNotations.
Open Scope string_scope.
Open Scope Z_scope.

(** ** JavaScript primitives used by the sources *)

Module Js.

(** A JavaScript string is held as its UTF-8 bytes.  [StrWhiteSpaceChar]:
    the code points of one byte (tab, line feed, vertical tab, form feed,
    carriage return, space), of two bytes (U+00A0) and of three bytes
    (U+1680, U+2000 to U+200A, U+2028, U+2029, U+202F, U+205F, U+3000,
    U+FEFF). *)
Definition is_white (c : ascii) : bool :=
  match nat_of_ascii c with
  | 9%nat | 10%nat | 11%nat | 12%nat | 13%nat | 32%nat => true
  | _ => false
  end.

Definition is_white2 (c1 c2 : ascii) : bool :=
  (nat_of_ascii c1 =? 194)%nat && (nat_of_ascii c2 =? 160)%nat.

Definition is_white3 (c1 c2 c3 : ascii) : bool :=
  let b2 := nat_of_ascii c2 in
  let b3 := nat_of_ascii c3 in
  match nat_of_ascii c1 with
  | 225%nat => (b2 =? 154)%nat && (b3 =? 128)%nat
  | 226%nat =>
      ((b2 =? 128)%nat
       && (((128 <=? b3)%nat && (b3 <=? 138)%nat)
           || (b3 =? 168)%nat || (b3 =? 169)%nat || (b3 =? 175)%nat))
      || ((b2 =? 129)%nat && (b3 =? 159)%nat)
  | 227%nat => (b2 =? 128)%nat && (b3 =? 128)%nat
  | 239%nat => (b2 =? 187)%nat && (b3 =? 191)%nat
  | _ => false
  end.

Fixpoint trim_start (s : string) : string :=
  match s with
  | String c1 r1 =>
      if is_white c1 then trim_start r1
      else
        match r1 with
        | String c2 r2 =>
            if is_white2 c1 c2 then trim_start r2
            else
              match r2 with
              | String c3 r3 =>
                  if is_white3 c1 c2 c3 then trim_start r3 else s
              | EmptyString => s
              end
        | EmptyString => s
        end
  | EmptyString => s
  end.

(** Value of a character as a digit: 0-9, then a-z and A-Z for 10..35. *)
Definition digit_value (c : ascii) : option Z :=
  let n := Z.of_nat (nat_of_ascii c) in
  if (48 <=? n) && (n <=? 57) then Some (n - 48)
  else if (97 <=? n) && (n <=? 122) then Some (n - 87)
  else if (65 <=? n) && (n <=? 90) then Some (n - 55)
  else None.

(** Longest prefix of radix-[R] digits, read as a number; [acc] is [None]
    until a first digit has been seen. *)
Fixpoint digits_prefix (R : Z) (s : string) (acc : option Z) : option Z :=
  match s with
  | String c rest =>
      match digit_value c with
      | Some d =>
          if d <? R
          then digits_prefix R rest
                 (Some (R * match acc with Some a => a | None => 0 end + d))
          else acc
      | None => acc
      end
  | EmptyString => acc
  end.

(** A Number that [parseInt] or [%] can yield: [NaN], an infinity, or a
    double whose value is an integer. *)
Inductive number :=
| NaN
| Infinity (negative : bool)
| Int (z : Z).

(** The Number value of an integer: the nearest double, ties to the even
    significand, an infinity from 2^1024 on. *)
Definition round_to_double (z : Z) : number :=
  let a := Z.abs z in
  if a <? 2 ^ 53 then Int z
  else
    let e := Z.log2 a - 52 in
    let q := Z.shiftr a e in
    let r := a - Z.shiftl q e in
    let half := Z.shiftl 1 (e - 1) in
    let q' := if (half <? r) || ((r =? half) && Z.odd q) then q + 1 else q in
    let m := Z.shiftl q' e in
    if 2 ^ 1024 <=? m then Infinity (z <? 0)
    else Int (if z <? 0 then - m else m).

(** [parseInt(s)] with no radix argument: leading white space, an optional
    sign, an optional [0x]/[0X] prefix switching to radix 16, then the
    longest run of digits; [NaN] when that run is empty, else the Number
    value of the integer read (every digit is taken into account). *)
Definition parseInt (s : string) : number :=
  let s0 := trim_start s in
  let '(sign, s1) :=
    match s0 with
    | String "-" rest => (-1, rest)
    | String "+" rest => (1, rest)
    | _ => (1, s0)
    end in
  let '(R, s2) :=
    match s1 with
    | String "0" (String "x" rest) => (16, rest)
    | String "0" (String "X" rest) => (16, rest)
    | _ => (10, s1)
    end in
  match digits_prefix R s2 None with
  | Some mathInt => round_to_double (sign * mathInt)
  | None => NaN
  end.

(** The value of a number when it is a finite integer: what passes as an
    integer argument of a Prisma call, and what survives the JSON encoding
    of a request (where [NaN] and the infinities become [null]). *)
Definition integer_of (n : number) : option Z :=
  match n with
  | Int z => Some z
  | _ => None
  end.

(** [a % b] for an integer divisor [b]: the sign follows the dividend;
    [NaN] when the dividend is [NaN] or infinite or the divisor is zero. *)
Definition rem (a : number) (b : Z) : number :=
  match a with
  | Int x => if b =? 0 then NaN else Int (Z.rem x b)
  | _ => NaN
  end.

(** [a < b], false as soon as one side is [NaN]. *)
Definition lt (a b : number) : bool :=
  match a, b with
  | NaN, _ | _, NaN => false
  | Infinity true, Infinity true => false
  | Infinity true, _ => true
  | _, Infinity true => false
  | Infinity false, _ => false
  | _, Infinity false => true
  | Int x, Int y => x <? y
  end.

(** Number-to-string conversion of a template literal, for the integers
    below 10^21 in magnitude (written in decimal digits with a leading
    minus sign) and the three special values. *)
Definition number_to_string (n : number) : string :=
  match n with
  | Int z => NilZero.string_of_int (Z.to_int z)
  | NaN => "NaN"
  | Infinity false => "Infinity"
  | Infinity true => "-Infinity"
  end.

(** [s.startsWith(p)] *)
Definition startsWith (s p : string) : bool := String.prefix p s.

(** [s.endsWith(p)] *)
Definition endsWith (s p : string) : bool :=
  let ls := String.length s in
  let lp := String.length p in
  (lp <=? ls)%nat && String.eqb (String.substring (ls - lp) lp s) p.

End Js.

(** ** The thumbnail resolver ([auth-options.ts], [profile]) *)

Module Auth.

(** The fields of [DiscordProfile] that [profile] reads or writes. *)
Record DiscordProfile := mkDiscordProfile {
  id : string;
  username : string;
  email : option string;
  avatar : option string;        (* [null] is [None] *)
  discriminator : string;
  image_url : string
}.

(** The record [profile] returns. *)
Record ProfileUser := mkProfileUser {
  pu_id : string;
  pu_name : string;
  pu_email : option string;
  pu_discordId : string;
  pu_discordUserName : string;
  pu_discordDiscriminator : string;
  pu_thumbnail : string
}.

(** The value assigned to [profile.image_url] (lines 43-49). *)
Definition resolve_image_url
    (avatar : option string) (id discriminator : string) : string :=
  match avatar with
  | None =>
      let defaultAvatarNumber := Js.rem (Js.parseInt discriminator) 5 in
      "https://cdn.discordapp.com/embed/avatars/"
        ++ Js.number_to_string defaultAvatarNumber ++ ".png"
  | Some hash =>
      let format := if Js.startsWith hash "a_" then "gif" else "png" in
      "https://cdn.discordapp.com/avatars/" ++ id ++ "/" ++ hash ++ "."
        ++ format
  end.

(** [profile(profile)]: the argument is updated in place, so the updated
    profile is returned next to the result; [cuid] is what [createId()]
    yields for this call. *)
Definition profile (cuid : string) (p : DiscordProfile)
  : DiscordProfile * ProfileUser :=
  let url := resolve_image_url (avatar p) (id p) (discriminator p) in
  let p' := mkDiscordProfile (id p) (username p) (email p) (avatar p)
              (discriminator p) url in
  (p',
   mkProfileUser cuid (username p') (email p') (id p') (username p')
     (discriminator p') (image_url p')).

End Auth.

(** ** The persistence collaborator: the [User] table behind Prisma *)

Module Store.

(** A row of the [User] table.  [id] stands for the generated cuid. *)
Record User := mkUser {
  id : nat;
  name : string;
  email : option string;
  discordId : option string;
  discordUserName : option string;
  discordDiscriminator : option string;
  githubId : option string;
  githubUserName : option string;
  thumbnail : string;
  coins : Z
}.

(** The table, rows in insertion order. *)
Definition DB := list User.

(** The [data] argument of [create]: every column but the generated [id].
    [c_coins] is a JavaScript number, [None] when it is not a finite
    integer ([NaN], an infinity). *)
Record UserCreateInput := mkCreate {
  c_name : string;
  c_email : option string;
  c_discordId : option string;
  c_discordUserName : option string;
  c_discordDiscriminator : option string;
  c_githubId : option string;
  c_githubUserName : option string;
  c_thumbnail : string;
  c_coins : option Z
}.

(** The [where] clauses the sources use. *)
Inductive UserWhereUniqueInput :=
| WhereDiscordId (k : string)
| WhereGithubId (k : string)
| WhereEmail (k : string).

Definition holds (col : option string) (k : string) : bool :=
  match col with
  | Some v => String.eqb v k
  | None => false
  end.

Definition selects (w : UserWhereUniqueInput) (u : User) : bool :=
  match w with
  | WhereDiscordId k => holds (discordId u) k
  | WhereGithubId k => holds (githubId u) k
  | WhereEmail k => holds (email u) k
  end.

Definition lookup (w : UserWhereUniqueInput) (db : DB) : option User :=
  List.find (selects w) db.

(** Two values of an optional unique column collide when both are present
    and equal; null values never collide. *)
Definition collide (a b : option string) : bool :=
  match a, b with
  | Some x, Some y => String.eqb x y
  | _, _ => false
  end.

(** Modelled from the spec: the Prisma schema of the [User] model is not
    among the sources.  Section 3 of the specification lists the columns
    that are unique when present; [discordId], [githubId], [email] and
    [discordUserName] are moreover used as [where] keys of
    [findUnique]/[upsert] in the sources, which Prisma only accepts on
    unique columns. *)
Definition breaks_unique (d : UserCreateInput) (other : User) : bool :=
  collide (c_email d) (email other)
  || collide (c_discordId d) (discordId other)
  || collide (c_discordUserName d) (discordUserName other)
  || collide (c_discordDiscriminator d) (discordDiscriminator other)
  || collide (c_githubId d) (githubId other)
  || collide (c_githubUserName d) (githubUserName other).

(** A generated identifier: new with respect to every row of the table. *)
Definition fresh_id (db : DB) : nat :=
  S (fold_right Nat.max 0%nat (map id db)).

Definition row_of (i : nat) (d : UserCreateInput) (c : Z) : User :=
  mkUser i (c_name d) (c_email d) (c_discordId d) (c_discordUserName d)
    (c_discordDiscriminator d) (c_githubId d) (c_githubUserName d)
    (c_thumbnail d) c.

Definition add_coins (delta : Z) (u : User) : User :=
  mkUser (id u) (name u) (email u) (discordId u) (discordUserName u)
    (discordDiscriminator u) (githubId u) (githubUserName u) (thumbnail u)
    (coins u + delta).

Definition non_negative (u : User) : Prop := 0 <= coins u.

(** Rewrite the row a [where] clause selects (the first match). *)
Fixpoint update_first (p : User -> bool) (f : User -> User) (db : DB) : DB :=
  match db with
  | [] => []
  | u :: rest => if p u then f u :: rest else u :: update_first p f rest
  end.

(** *** Errors and the error-threading monad *)

Inductive TRPCErrorCode :=
| CONFLICT | BAD_REQUEST | UNAUTHORIZED | INTERNAL_SERVER_ERROR.

Record TRPCError := mkTRPCError {
  code : TRPCErrorCode;
  message : string
}.

(** Modelled from the spec: [PrismaErrorCode] comes from [constants], which
    is not among the sources; the router names one of its members,
    [UniqueConstraintViolation] (section 4.3: persistence unique-constraint
    violations).  [RecordNotFound] is the code of an [update] that finds no
    row; any other code is [OtherPrismaCode]. *)
Inductive PrismaErrorCode :=
| UniqueConstraintViolation
| RecordNotFound
| OtherPrismaCode (text : string).

(** What a [throw] inside a procedure body can carry. *)
Inductive Exn :=
| PrismaClientKnownRequestError (prismaCode : PrismaErrorCode)
| PrismaClientValidationError
| PrismaClientInitializationError
| ZodError
| TRPCErr (e : TRPCError).

Inductive result (A : Type) :=
| Ok (a : A)
| Thrown (e : Exn).
Arguments Ok {A} a.
Arguments Thrown {A} e.

(** An asynchronous body: it runs against the table and either yields a
    value or throws; what it wrote before throwing stays written. *)
Definition M (A : Type) : Type := DB -> DB * result A.

Definition ret {A} (a : A) : M A := fun db => (db, Ok a).

Definition throw {A} (e : Exn) : M A := fun db => (db, Thrown e).

Definition bind {A B} (m : M A) (k : A -> M B) : M B :=
  fun db =>
    match m db with
    | (db', Ok a) => k a db'
    | (db', Thrown e) => (db', Thrown e)
    end.

(** *** The Prisma calls of the sources

    Each definition below is what the call does to the table when the
    store answers it: the value it resolves to, or the error the request
    itself earns (invalid arguments, a unique column that collides, a
    missing row).  That a call can also fail for reasons of the store (no
    connection, a time-out, any other Prisma error), and that other
    requests can write between two calls of one procedure, is added by
    [Runtime.call], through which [Runtime] runs the same procedures. *)

(** [prisma.user.findUnique({ where })] *)
Definition findUnique (w : UserWhereUniqueInput) : M (option User) :=
  fun db => (db, Ok (lookup w db)).

(** [prisma.user.create({ data })]: the arguments are validated first (a
    [coins] that is not an integer is refused), then the row is inserted
    unless a unique column collides. *)
Definition create (d : UserCreateInput) : M User :=
  fun db =>
    match c_coins d with
    | None => (db, Thrown PrismaClientValidationError)
    | Some c =>
        if existsb (breaks_unique d) db
        then (db, Thrown (PrismaClientKnownRequestError UniqueConstraintViolation))
        else
          let row := row_of (fresh_id db) d c in
          ((db ++ [row])%list, Ok row)
    end.

(** [prisma.user.update({ where, data: { coins: { increment: delta } } })]
    when the store answers; a decrement is an increment by the opposite.
    The write carries no condition besides [where]; a missing row raises
    [RecordNotFound]. *)
Definition update_coins (w : UserWhereUniqueInput) (delta : option Z)
  : M User :=
  fun db =>
    match delta with
    | None => (db, Thrown PrismaClientValidationError)
    | Some n =>
        match lookup w db with
        | None => (db, Thrown (PrismaClientKnownRequestError RecordNotFound))
        | Some u => (update_first (selects w) (add_coins n) db, Ok (add_coins n u))
        end
    end.

(** [prisma.user.upsert({ where, update: { coins: { increment } }, create })] *)
Definition upsert (w : UserWhereUniqueInput) (increment : option Z)
    (d : UserCreateInput) : M User :=
  fun db =>
    match increment, c_coins d with
    | Some n, Some _ =>
        match lookup w db with
        | Some _ => update_coins w (Some n) db
        | None => create d db
        end
    | _, _ => (db, Thrown PrismaClientValidationError)
    end.

End Store.

(** ** The user router ([packages/api/src/router/user.ts]) *)

Module Router.
Import Store.

Declare Scope async_scope.
Delimit Scope async_scope with async.
Notation "x <- m ;; k" := (bind m (fun x => k))
  (at level 100, m at next level, right associativity) : async_scope.
Notation "m ;;; k" := (bind m (fun _ => k))
  (at level 100, right associativity) : async_scope.
Open Scope async_scope.

(** The chat-platform user object of the inputs. *)
Record DiscordUser := mkDiscordUser {
  du_id : string;
  du_username : string;
  du_avatar : option string;
  du_discriminator : string
}.

(** The code-host user object of [sendCoinsByGithubId]. *)
Record GithubUser := mkGithubUser {
  gu_id : string;
  gu_login : string;
  gu_name : string;
  gu_email : string;
  gu_avatarUrl : string
}.

Record SendCoinsByUserIdInput := mkSendByUser {
  su_user : DiscordUser;
  su_coins : Z
}.

Record SendCoinsByGithubIdInput := mkSendByGithub {
  sg_user : GithubUser;
  sg_coins : string
}.

Record PayCoinsByUserIdInput := mkPay {
  receiver : DiscordUser;
  sender : DiscordUser;
  pay_coins : Z
}.

(** Modelled from the spec: [setThumbnailUrl] lives in [utils/functions],
    which is not among the sources; section 4.1 gives its rule, the one
    [profile] of [auth-options.ts] implements. *)
Definition setThumbnailUrl (u : DiscordUser) : string :=
  Auth.resolve_image_url (du_avatar u) (du_id u) (du_discriminator u).

(** *** Responses *)

Inductive Response := SUCCESS.

Inductive Payload :=
| data_user (user : User)
| data_receiver (receiver : User).

Record Envelope := mkEnvelope {
  status : Response;
  data : Payload
}.

(** How a call of a mutation ends: it returns an envelope, it throws a
    [TRPCError], or it falls off the end of its catch block and returns
    [undefined]. *)
Inductive Outcome :=
| Returns (e : Envelope)
| Throws (e : TRPCError)
| ReturnsUndefined.

(** *** Message keys handed to [i18n.t] *)

Definition userAlreadyExists := "package.api.item.buyItem.error.userAlreadyExists".
Definition invalidItemId := "package.api.item.buyItem.error.invalidItemId".
Definition unauthorized := "common.message.error.unauthorized".
Definition insufficientBalance :=
  "package.api.user.payCoinsByUserId.error.insufficientBalance".

Definition is_unauthorized (c : TRPCErrorCode) : bool :=
  match c with UNAUTHORIZED => true | _ => false end.

(** The catch block every mutation ends with. *)
Definition catch_block (error : Exn) : Outcome :=
  match error with
  | PrismaClientKnownRequestError c =>
      match c with
      | UniqueConstraintViolation =>
          Throws (mkTRPCError CONFLICT userAlreadyExists)
      | _ => ReturnsUndefined
      end
  | ZodError => Throws (mkTRPCError BAD_REQUEST invalidItemId)
  | TRPCErr e =>
      if is_unauthorized (code e)
      then Throws (mkTRPCError UNAUTHORIZED unauthorized)
      else Throws (mkTRPCError INTERNAL_SERVER_ERROR (message e))
  | PrismaClientValidationError => ReturnsUndefined
  | PrismaClientInitializationError => ReturnsUndefined
  end.

(** [try { body } catch (error) { catch_block }] *)
Definition try_catch (body : M Envelope) (db : DB) : DB * Outcome :=
  match body db with
  | (db', Ok e) => (db', Returns e)
  | (db', Thrown err) => (db', catch_block err)
  end.

(** *** sendCoinsByUserId *)

Definition discord_create_data (u : DiscordUser) (thumb : string)
    (c : option Z) : UserCreateInput :=
  mkCreate (du_username u) None (Some (du_id u)) (Some (du_username u))
    (Some (du_discriminator u)) None None thumb c.

(** The test [if (!user)] that follows the upsert never fires, an upsert
    yielding a row whenever it returns. *)
Definition sendCoinsByUserId_body (input : SendCoinsByUserIdInput) : M Envelope :=
  let tempThumbnail := setThumbnailUrl (su_user input) in
  user <- upsert (WhereDiscordId (du_id (su_user input)))
            (Some (su_coins input))
            (discord_create_data (su_user input) tempThumbnail
               (Some (su_coins input))) ;;
  ret (mkEnvelope SUCCESS (data_user user)).

Definition sendCoinsByUserId (input : SendCoinsByUserIdInput)
  : DB -> DB * Outcome :=
  try_catch (sendCoinsByUserId_body input).

(** *** sendCoinsByGithubId *)

Definition github_create_data (u : GithubUser) (c : option Z)
  : UserCreateInput :=
  mkCreate (gu_name u) (Some (gu_email u)) None None None
    (Some (gu_id u)) (Some (gu_login u)) (gu_avatarUrl u) c.

Definition sendCoinsByGithubId_body (input : SendCoinsByGithubIdInput)
  : M Envelope :=
  user <- upsert (WhereGithubId (gu_id (sg_user input)))
            (Js.integer_of (Js.parseInt (sg_coins input)))
            (github_create_data (sg_user input)
               (Js.integer_of (Js.parseInt (sg_coins input)))) ;;
  ret (mkEnvelope SUCCESS (data_user user)).

Definition sendCoinsByGithubId (input : SendCoinsByGithubIdInput)
  : DB -> DB * Outcome :=
  try_catch (sendCoinsByGithubId_body input).

(** *** payCoinsByUserId *)

Definition insufficient_balance_error : Exn :=
  TRPCErr (mkTRPCError INTERNAL_SERVER_ERROR insufficientBalance).

(** Lines 283-321: read the sender's balance, provision an unknown sender
    with no coins, refuse when the balance does not cover the amount.
    ([newUser] is a row, hence truthy: the message is the
    insufficient-balance one.) *)
Definition pay_check (input : PayCoinsByUserIdInput) : M unit :=
  senderBalance <- findUnique (WhereDiscordId (du_id (sender input))) ;;
  match senderBalance with
  | None =>
      newUser <- create (discord_create_data (sender input)
                           (setThumbnailUrl (sender input)) (Some 0)) ;;
      throw insufficient_balance_error
  | Some sb =>
      if (coins sb <=? 0) || (coins sb <? pay_coins input)
      then throw insufficient_balance_error
      else ret tt
  end.

(** Lines 323-373: decrement the sender, then credit or create the
    receiver.  (The tests [!newSenderBalance] and [!updatedReceiver] never
    fire.) *)
Definition pay_commit (input : PayCoinsByUserIdInput) : M Envelope :=
  newSenderBalance <- update_coins (WhereDiscordId (du_id (sender input)))
                        (Some (- pay_coins input)) ;;
  let tempThumbnail := setThumbnailUrl (receiver input) in
  updatedReceiver <- upsert (WhereDiscordId (du_id (receiver input)))
                       (Some (pay_coins input))
                       (discord_create_data (receiver input) tempThumbnail
                          (Some (pay_coins input))) ;;
  ret (mkEnvelope SUCCESS (data_receiver updatedReceiver)).

Definition payCoinsByUserId_body (input : PayCoinsByUserIdInput) : M Envelope :=
  (pay_check input ;;; pay_commit input).

Definition payCoinsByUserId (input : PayCoinsByUserIdInput)
  : DB -> DB * Outcome :=
  try_catch (payCoinsByUserId_body input).

(** The rows a transfer may have to create. *)
Definition sender_data (input : PayCoinsByUserIdInput) : UserCreateInput :=
  discord_create_data (sender input) (setThumbnailUrl (sender input)) (Some 0).

Definition receiver_data (input : PayCoinsByUserIdInput) : UserCreateInput :=
  discord_create_data (receiver input) (setThumbnailUrl (receiver input))
    (Some (pay_coins input)).

(** *** The ledger operations as one type *)

Inductive LedgerOp :=
| SendByUser (i : SendCoinsByUserIdInput)
| SendByGithub (i : SendCoinsByGithubIdInput)
| Pay (i : PayCoinsByUserIdInput).

Definition run (op : LedgerOp) : DB -> DB * Outcome :=
  match op with
  | SendByUser i => sendCoinsByUserId i
  | SendByGithub i => sendCoinsByGithubId i
  | Pay i => payCoinsByUserId i
  end.

(** The amount an operation asks for, as a JavaScript number. *)
Definition amount_of (op : LedgerOp) : option Z :=
  match op with
  | SendByUser i => Some (su_coins i)
  | SendByGithub i => Js.integer_of (Js.parseInt (sg_coins i))
  | Pay i => Some (pay_coins i)
  end.

(** The amount is a number and is not negative, or is not a number. *)
Definition amount_non_negative (op : LedgerOp) : Prop :=
  forall n, amount_of op = Some n -> 0 <= n.

(** *** Vocabulary of the properties *)

Definition balance (w : UserWhereUniqueInput) (db : DB) : option Z :=
  option_map coins (lookup w db).

Definition all_non_negative (db : DB) : Prop := Forall non_negative db.

(** The errors of the taxonomy, as the router surfaces them. *)
Definition InsufficientBalance : Outcome :=
  Throws (mkTRPCError INTERNAL_SERVER_ERROR insufficientBalance).

Definition DuplicateIdentity : Outcome :=
  Throws (mkTRPCError CONFLICT userAlreadyExists).

End Router.

(** ** The procedures with a store that can fail and with other requests *)

Module Runtime.
Import Store Router.

(** An error the store raises whatever the query: a known request error
    with its code (a time-out, a constraint, a value out of range), or a
    failure to reach the database.  The errors Prisma has besides (an
    unknown request error, a panic of the engine) are none of the classes
    the catch block tests for, and go through it as the latter does. *)
Inductive PrismaFault :=
| KnownRequestFault (prismaCode : PrismaErrorCode)
| InitializationFault.

Definition exn_of_fault (f : PrismaFault) : Exn :=
  match f with
  | KnownRequestFault c => PrismaClientKnownRequestError c
  | InitializationFault => PrismaClientInitializationError
  end.

(** What surrounds one Prisma call: the call is answered; the call raises
    a fault and writes nothing; or the writes of other requests land first
    and the call is answered on the table they leave. *)
Inductive Event :=
| Quiet
| Fails (f : PrismaFault)
| Meanwhile (others : DB -> DB).

(** The table together with what awaits the Prisma calls to come, one
    event per call; the calls past the end of the list are answered. *)
Record World := mkWorld {
  table : DB;
  events : list Event
}.

Definition W (A : Type) : Type := World -> World * result A.

Definition retW {A} (a : A) : W A := fun w => (w, Ok a).

Definition throwW {A} (e : Exn) : W A := fun w => (w, Thrown e).

Definition bindW {A B} (m : W A) (k : A -> W B) : W B :=
  fun w =>
    match m w with
    | (w', Ok a) => k a w'
    | (w', Thrown e) => (w', Thrown e)
    end.

(** One awaited Prisma call. *)
Definition call {A} (m : M A) : W A :=
  fun w =>
    match events w with
    | Fails f :: rest => (mkWorld (table w) rest, Thrown (exn_of_fault f))
    | Meanwhile others :: rest =>
        (mkWorld (fst (m (others (table w)))) rest,
         snd (m (others (table w))))
    | Quiet :: rest => (mkWorld (fst (m (table w))) rest, snd (m (table w)))
    | [] => (mkWorld (fst (m (table w))) [], snd (m (table w)))
    end.

Definition try_catch_in (body : W Envelope) (w : World) : World * Outcome :=
  match body w with
  | (w', Ok e) => (w', Returns e)
  | (w', Thrown err) => (w', catch_block err)
  end.

Definition sendCoinsByUserId_in (input : SendCoinsByUserIdInput)
  : World -> World * Outcome :=
  try_catch_in
    (let tempThumbnail := setThumbnailUrl (su_user input) in
     bindW (call (upsert (WhereDiscordId (du_id (su_user input)))
                    (Some (su_coins input))
                    (discord_create_data (su_user input) tempThumbnail
                       (Some (su_coins input)))))
       (fun user => retW (mkEnvelope SUCCESS (data_user user)))).

Definition sendCoinsByGithubId_in (input : SendCoinsByGithubIdInput)
  : World -> World * Outcome :=
  try_catch_in
    (bindW (call (upsert (WhereGithubId (gu_id (sg_user input)))
                    (Js.integer_of (Js.parseInt (sg_coins input)))
                    (github_create_data (sg_user input)
                       (Js.integer_of (Js.parseInt (sg_coins input))))))
       (fun user => retW (mkEnvelope SUCCESS (data_user user)))).

Definition pay_check_in (input : PayCoinsByUserIdInput) : W unit :=
  bindW (call (findUnique (WhereDiscordId (du_id (sender input)))))
    (fun senderBalance =>
       match senderBalance with
       | None =>
           bindW (call (create (discord_create_data (sender input)
                                  (setThumbnailUrl (sender input)) (Some 0))))
             (fun newUser => throwW insufficient_balance_error)
       | Some sb =>
           if (coins sb <=? 0) || (coins sb <? pay_coins input)
           then throwW insufficient_balance_error
           else retW tt
       end).

Definition pay_commit_in (input : PayCoinsByUserIdInput) : W Envelope :=
  bindW (call (update_coins (WhereDiscordId (du_id (sender input)))
                 (Some (- pay_coins input))))
    (fun newSenderBalance =>
       let tempThumbnail := setThumbnailUrl (receiver input) in
       bindW (call (upsert (WhereDiscordId (du_id (receiver input)))
                      (Some (pay_coins input))
                      (discord_create_data (receiver input) tempThumbnail
                         (Some (pay_coins input)))))
         (fun updatedReceiver =>
            retW (mkEnvelope SUCCESS (data_receiver updatedReceiver)))).

Definition payCoinsByUserId_in (input : PayCoinsByUserIdInput)
  : World -> World * Outcome :=
  try_catch_in (bindW (pay_check_in input) (fun _ => pay_commit_in input)).

Definition run_in (op : LedgerOp) : World -> World * Outcome :=
  match op with
  | SendByUser i => sendCoinsByUserId_in i
  | SendByGithub i => sendCoinsByGithubId_in i
  | Pay i => payCoinsByUserId_in i
  end.

Definition is_meanwhile (e : Event) : bool :=
  match e with Meanwhile _ => true | _ => false end.

Definition is_fault (e : Event) : bool :=
  match e with Fails _ => true | _ => false end.

(** No other request writes while the procedure runs. *)
Definition undisturbed (w : World) : Prop :=
  existsb is_meanwhile (events w) = false.

(** Every Prisma call is answered. *)
Definition answered (w : World) : Prop :=
  existsb is_fault (events w) = false.

(** The fault that awaits the next call, if one does. *)
Definition next_fault (w : World) : option PrismaFault :=
  match events w with
  | Fails f :: _ => Some f
  | _ => None
  end.

(** The world in which nothing awaits the calls. *)
Definition calm (db : DB) : World := mkWorld db [].

End Runtime.

(** ** The [give-coins] slash command of the bot *)

Module Bot.
Import Store Router.

(** What the handler reads from the interaction: whether the member holds
    the administrator role, the [user] option, the [coins] option (a
    string) and the identifier of the member who typed the command. *)
Record Interaction := mkInteraction {
  hasAdminRole : bool;
  option_user : DiscordUser;
  option_coins : string;
  member_id : string
}.

(** The last content written with [editReply], if any. *)
Inductive Reply :=
| Deferred
| Content (text : string)
| GiveSuccess (sender coins receiver : string).

Definition notAllowed := "bot:common.error.notAllowed".
Definition invalidAmount := "bot:common.error.invalidAmount".
Definition internalError := "common:message.error.internalError".

(** The text tRPC puts in the error raised when the input fails the zod
    schema of the procedure (here: [coins] is not a number). *)
Definition inputValidationFailed := "tRPC: input validation failed".

(** [api.user.sendCoinsByUserId.mutate({ user, coins })]: [NaN] and the
    infinities reach the server as [null], which the input schema
    [z.number()] refuses before the mutation runs. *)
Definition api_sendCoinsByUserId (user : DiscordUser) (coins : option Z)
  : DB -> DB * Outcome :=
  fun db =>
    match coins with
    | None => (db, Throws (mkTRPCError BAD_REQUEST inputValidationFailed))
    | Some c => sendCoinsByUserId (mkSendByUser user c) db
    end.

Definition execute (interaction : Interaction) : DB -> DB * Reply :=
  fun db =>
    let user := option_user interaction in
    let coins := option_coins interaction in
    if negb (hasAdminRole interaction) then (db, Content notAllowed)
    else if Js.lt (Js.parseInt coins) (Js.Int 1)
    then (db, Content invalidAmount)
    else
      match api_sendCoinsByUserId user (Js.integer_of (Js.parseInt coins)) db
      with
      | (db', Returns _) =>
          (db', GiveSuccess (member_id interaction) coins (du_id user))
      | (db', ReturnsUndefined) => (db', Deferred)
      | (db', Throws error) =>
          (db', Content (if String.eqb (message error) ""
                         then internalError else message error))
      end.

End Bot.

(** ** The queries of the user router *)

Module Queries.
Import Store.

(** [getByDiscordId]: [prisma.user.findUnique({ where: { discordId } })] *)
Definition getByDiscordId (discordId : string) (db : DB) : option User :=
  lookup (WhereDiscordId discordId) db.

(** [getByEmail]: [prisma.user.findUnique({ where: { email } })] *)
Definition getByEmail (email : string) (db : DB) : option User :=
  lookup (WhereEmail email) db.

(** [getAll]: [prisma.user.findMany()] *)
Definition getAll (db : DB) : list User := db.

End Queries.

(** ** Vocabulary for the properties of whole tables *)

Module TableVocabulary.
Import Store.

(** The coins in circulation. *)
Definition total (db : DB) : Z :=
  fold_right (fun u acc => coins u + acc) 0 db.

(** Two versions of a row that differ at most in their balance. *)
Definition same_identity (a b : User) : Prop :=
  b = add_coins (coins b - coins a) a.

(** [db'] is [db] with balances possibly changed, followed by at most [k]
    new rows. *)
Definition grows (k : nat) (db db' : DB) : Prop :=
  exists upd extra : DB,
    db' = (upd ++ extra)%list
    /\ Forall2 same_identity db upd
    /\ (List.length extra <= k)%nat.



(** A non-empty string of decimal digits. *)
Definition is_digit (c : ascii) : bool :=
  let n := nat_of_ascii c in (48 <=? n)%nat && (n <=? 57)%nat.

Fixpoint all_digits (s : string) : bool :=
  match s with
  | EmptyString => true
  | String c rest => is_digit c && all_digits rest
  end.

Definition is_decimal (s : string) : bool :=
  match s with
  | EmptyString => false
  | String _ _ => all_digits s
  end.

End TableVocabulary.

(** ** The [signIn] callback ([auth-options.ts]) *)

Module SignIn.
Import Store.

(** Modelled from the spec: the [Account] model of the identity-provider
    adapter is not among the sources; section 6 describes it as keyed by
    [(provider, providerAccountId)] and referencing a [User] id, and
    [signIn] reads it under that key and writes these four columns. *)
Record Account := mkAccount {
  userId : nat;
  acc_type : string;
  provider : string;
  providerAccountId : string
}.

(** The two tables [signIn] touches. *)
Record Tables := mkTables {
  users : DB;
  accounts : list Account
}.

(** A property that may be missing ([undefined]), [null], or a string. *)
Inductive Optional :=
| Undefined
| Null
| Value (s : string).

(** The [account] and [user] members of the argument.  Both are taken to
    be present, with a [name] and an [id], as they are for a sign-in
    through the one provider configured. *)
Record AccountArg := mkAccountArg {
  arg_type : string;
  arg_provider : string;
  arg_providerAccountId : string
}.

Record UserArg := mkUserArg {
  arg_id : string;
  arg_name : string;
  arg_email : Optional
}.

Definition T (A : Type) : Type := Tables -> Tables * result A.

Definition retT {A} (a : A) : T A := fun t => (t, Ok a).

Definition bindT {A B} (m : T A) (k : A -> T B) : T B :=
  fun t =>
    match m t with
    | (t', Ok a) => k a t'
    | (t', Thrown e) => (t', Thrown e)
    end.

Definition account_key (p k : string) (a : Account) : bool :=
  String.eqb (provider a) p && String.eqb (providerAccountId a) k.

(** [prisma.account.findUnique({ where: { provider_providerAccountId } })] *)
Definition account_findUnique (p k : string) : T (option Account) :=
  fun t => (t, Ok (find (account_key p k) (accounts t))).

(** [prisma.account.create({ data })] *)
Definition account_create (a : Account) : T Account :=
  fun t =>
    if existsb (account_key (provider a) (providerAccountId a)) (accounts t)
    then (t, Thrown (PrismaClientKnownRequestError UniqueConstraintViolation))
    else (mkTables (users t) (accounts t ++ [a])%list, Ok a).

Definition named (k : string) (u : User) : bool := holds (discordUserName u) k.

(** [prisma.user.findUnique({ where: { discordUserName } })] *)
Definition user_findUnique_discordUserName (k : string) : T (option User) :=
  fun t => (t, Ok (find (named k) (users t))).

(** The row after [data: { discordId, email }]: an [undefined] e-mail
    leaves the column alone, [null] empties it. *)
Definition set_link (uid : string) (mail : Optional) (u : User) : User :=
  mkUser (id u) (name u)
    (match mail with
     | Undefined => email u
     | Null => None
     | Value e => Some e
     end)
    (Some uid) (discordUserName u) (discordDiscriminator u) (githubId u)
    (githubUserName u) (thumbnail u) (coins u).

(** The rows of the table other than the one a predicate selects. *)
Fixpoint others (p : User -> bool) (db : DB) : DB :=
  match db with
  | [] => []
  | u :: rest => if p u then rest else u :: others p rest
  end.

Definition link_breaks_unique (uid : string) (mail : Optional) (o : User)
  : bool :=
  collide (Some uid) (discordId o)
  || match mail with
     | Value e => collide (Some e) (email o)
     | _ => false
     end.

(** [prisma.user.update({ where: { discordUserName }, data: { discordId,
    email } })]: refused when another row already holds the identifier or
    the address. *)
Definition user_update_link (k uid : string) (mail : Optional) : T User :=
  fun t =>
    match find (named k) (users t) with
    | None => (t, Thrown (PrismaClientKnownRequestError RecordNotFound))
    | Some u =>
        if existsb (link_breaks_unique uid mail) (others (named k) (users t))
        then (t, Thrown (PrismaClientKnownRequestError UniqueConstraintViolation))
        else (mkTables (update_first (named k) (set_link uid mail) (users t))
                (accounts t),
              Ok (set_link uid mail u))
    end.

(** [signIn({ account, user })].  The callback has no catch block: what a
    Prisma call throws leaves it.  (The rows returned by [update] and
    [create] are truthy, so the [return false] is never reached.) *)
Definition signIn (account : AccountArg) (user : UserArg) : T bool :=
  bindT (account_findUnique "discord" (arg_providerAccountId account))
    (fun findAccountUser =>
       match findAccountUser with
       | Some _ => retT true
       | None =>
           bindT (user_findUnique_discordUserName (arg_name user))
             (fun findUserByDiscordUsername =>
                match findUserByDiscordUsername with
                | Some found =>
                    let key :=
                      match discordUserName found with
                      | Some k => k
                      | None => arg_name user
                      end in
                    bindT (user_update_link key (arg_id user) (arg_email user))
                      (fun updateUserDiscordIdAndEmail =>
                         bindT (account_create
                                  (mkAccount (id found) (arg_type account)
                                     (arg_provider account)
                                     (arg_providerAccountId account)))
                           (fun createAccount => retT true))
                | None => retT true
                end)
       end).

(** Every column of a row but the two [signIn] writes. *)
Definition besides_link (u : User) :=
  (id u, name u, discordUserName u, discordDiscriminator u, githubId u,
   githubUserName u, thumbnail u, coins u).

End SignIn.

(** ** The slash-command loader of the bot *)

Module Loader.

Section Load.

(** The type of a command module's default export, the name its builder
    carries, and what [require] yields for a path. *)
Variable SlashCommand : Type.
Variable name_of : SlashCommand -> string.
Variable require : string -> SlashCommand.

(** [client.slashCommands], a map from names to commands, as the list of
    its entries in insertion order. *)
Definition Collection : Type := list (string * SlashCommand).

(** [collection.set(key, value)]: the value of an existing key is replaced
    in place, a new key is added at the end. *)
Fixpoint collection_set (k : string) (v : SlashCommand) (c : Collection)
  : Collection :=
  match c with
  | [] => [(k, v)]
  | (k', v') :: rest =>
      if String.eqb k' k then (k, v) :: rest
      else (k', v') :: collection_set k v rest
  end.

(** [collection.get(key)] *)
Fixpoint collection_get (k : string) (c : Collection) : option SlashCommand :=
  match c with
  | [] => None
  | (k', v') :: rest =>
      if String.eqb k' k then Some v' else collection_get k rest
  end.

(** One turn of the [forEach] over the directory: a file whose name does
    not end in [.ts] is skipped, any other is loaded, pushed on the array
    of builders and set in the collection under its name. *)
Definition load_file (slashCommandsDir : string)
    (acc : list SlashCommand * Collection) (file : string)
  : list SlashCommand * Collection :=
  if negb (Js.endsWith file ".ts") then acc
  else
    let command := require (slashCommandsDir ++ "/" ++ file) in
    ((fst acc ++ [command])%list,
     collection_set (name_of command) command (snd acc)).

(** The whole loop, from the directory listing and the collection the
    client holds; the first component is the array whose entries are sent
    to the REST API. *)
Definition load (slashCommandsDir : string) (files : list string)
    (slashCommands0 : Collection) : list SlashCommand * Collection :=
  fold_left (load_file slashCommandsDir) files ([], slashCommands0).

(** The files the loop loads, the module of a file, and the commands
    that carry a given name. *)
Definition is_ts (file : string) : bool := Js.endsWith file ".ts".

Definition module_of (slashCommandsDir file : string) : SlashCommand :=
  require (slashCommandsDir ++ "/" ++ file).

Definition carries (k : string) (c : SlashCommand) : bool :=
  String.eqb (name_of c) k.

End Load.

End Loader.

(** ** The ways the procedures can go *)

Module Cases.
Import Store Router.

(** What an upsert with proper numbers can do. *)
Inductive upsert_case (w : UserWhereUniqueInput) (n : Z) (d : UserCreateInput)
    (c : Z) (db : DB) : DB * result User -> Prop :=
| upsert_updates u :
    lookup w db = Some u ->
    upsert_case w n d c db
      (update_first (selects w) (add_coins n) db, Ok (add_coins n u))
| upsert_creates :
    lookup w db = None ->
    existsb (breaks_unique d) db = false ->
    upsert_case w n d c db
      ((db ++ [row_of (fresh_id db) d c])%list, Ok (row_of (fresh_id db) d c))
| upsert_conflicts :
    lookup w db = None ->
    existsb (breaks_unique d) db = true ->
    upsert_case w n d c db
      (db, Thrown (PrismaClientKnownRequestError UniqueConstraintViolation)).

(** The three ways a transfer can go. *)
Inductive pay_case (input : PayCoinsByUserIdInput) (db : DB)
  : DB * Outcome -> Prop :=
| pay_provisions :
    lookup (WhereDiscordId (du_id (sender input))) db = None ->
    existsb (breaks_unique (sender_data input)) db = false ->
    pay_case input db
      ((db ++ [row_of (fresh_id db) (sender_data input) 0])%list,
       InsufficientBalance)
| pay_provision_conflicts :
    lookup (WhereDiscordId (du_id (sender input))) db = None ->
    existsb (breaks_unique (sender_data input)) db = true ->
    pay_case input db (db, DuplicateIdentity)
| pay_refuses s :
    lookup (WhereDiscordId (du_id (sender input))) db = Some s ->
    coins s <= 0 \/ coins s < pay_coins input ->
    pay_case input db (db, InsufficientBalance)
| pay_writes s res :
    lookup (WhereDiscordId (du_id (sender input))) db = Some s ->
    0 < coins s -> pay_coins input <= coins s ->
    upsert_case (WhereDiscordId (du_id (receiver input))) (pay_coins input)
      (receiver_data input) (pay_coins input)
      (update_first (selects (WhereDiscordId (du_id (sender input))))
         (add_coins (- pay_coins input)) db) res ->
    pay_case input db
      (fst res,
       match snd res with
       | Ok r => Returns (mkEnvelope SUCCESS (data_receiver r))
       | Thrown e => catch_block e
       end).

End Cases.

(** ** The ways a transfer can go when the store can fail *)

Module RuntimeCases.
Import Store Router Runtime.

(** Where a transfer run without other requests ends, as the table it
    leaves and its outcome: a fault stopped it before any write; or no call
    failed and it ended as the router's procedure does on the table; or a
    fault stopped it after the debit. *)
Inductive pay_in_case (input : PayCoinsByUserIdInput) (db : DB)
    (evs : list Event) : DB -> Outcome -> Prop :=
| pay_fault_before_write f :
    In (Fails f) evs ->
    pay_in_case input db evs db (catch_block (exn_of_fault f))
| pay_as_router :
    pay_in_case input db evs (fst (payCoinsByUserId input db))
      (snd (payCoinsByUserId input db))
| pay_fault_after_debit s f :
    In (Fails f) evs ->
    lookup (WhereDiscordId (du_id (sender input))) db = Some s ->
    0 < coins s -> pay_coins input <= coins s ->
    pay_in_case input db evs
      (update_first (selects (WhereDiscordId (du_id (sender input))))
         (add_coins (- pay_coins input)) db)
      (catch_block (exn_of_fault f)).

End RuntimeCases.

(** ** Concrete tables and inputs used by the examples *)

Module Fixtures.
Import Store Router.

Definition alice : User :=
  mkUser 1 "alice" None (Some "100") (Some "alice") (Some "0001") None None
    "" 10.

Definition bob : User :=
  mkUser 2 "bob" None (Some "200") (Some "bob") (Some "0002") None None
    "" 5.

(** A user provisioned through [create] or a sign-in, with a name on the
    chat platform and an e-mail address but no linked account yet. *)
Definition carol : User :=
  mkUser 3 "carol" (Some "carol@example.org") None (Some "carol") None None
    None "" 0.

Definition alice_discord : DiscordUser := mkDiscordUser "100" "alice" None "0001".
Definition bob_discord : DiscordUser := mkDiscordUser "200" "bob" None "0002".
Definition carol_discord : DiscordUser := mkDiscordUser "300" "carol" None "0003".
Definition dave_discord : DiscordUser := mkDiscordUser "400" "dave" None "0004".

Definition carol_github : GithubUser :=
  mkGithubUser "9001" "carol-gh" "Carol" "carol@example.org"
    "https://avatars.example.org/u/9001".

Definition erin_github : GithubUser :=
  mkGithubUser "9002" "erin-gh" "Erin" "erin@example.org"
    "https://avatars.example.org/u/9002".

End Fixtures.

(** ** Concrete sign-ins and directory listings *)

Module Scenarios.
Import Store Fixtures.

(** Carol signs in with the chat platform for the first time. *)
Definition carol_account : SignIn.AccountArg :=
  SignIn.mkAccountArg "oauth" "discord" "300".

Definition carol_user : SignIn.UserArg :=
  SignIn.mkUserArg "300" "carol" (SignIn.Value "carol@example.org").

Definition before_sign_in : SignIn.Tables :=
  SignIn.mkTables [alice; carol] [].

Record Cmd := mkCmd {
  cmd_name : string;
  cmd_file : string
}.

(** Every module exports the command [give-coins], except [ping.ts]. *)
Definition require_cmd (path : string) : Cmd :=
  if String.eqb path "commands/ping.ts" then mkCmd "ping" path
  else mkCmd "give-coins" path.

Definition listing : list string :=
  ["giveCoins.ts"; "README.md"; "ping.ts"; "giveCoinsV2.ts"; "old.js"].

End Scenarios.

(** ** Sanity checks of the primitives *)

Example parseInt_15 : Js.parseInt "15" = Js.Int 15.
Proof. reflexivity. Qed.

Example parseInt_hex : Js.parseInt "  -0x1f!" = Js.Int (-31).
Proof. reflexivity. Qed.

Example parseInt_nan : Js.parseInt "abc" = Js.NaN.
Proof. reflexivity. Qed.

(** A no-break space before the digits is skipped. *)
Example parseInt_no_break_space :
  Js.parseInt (String (ascii_of_nat 194) (String (ascii_of_nat 160) "-7"))
  = Js.Int (-7).
Proof. reflexivity. Qed.

(** Beyond 2^53 the value is the nearest double; from 2^1024 on it is an
    infinity. *)
Example parseInt_rounds :
  Js.parseInt "9007199254740993" = Js.Int 9007199254740992.
Proof. vm_compute. reflexivity. Qed.

Example round_to_double_overflows :
  Js.round_to_double (10 ^ 400) = Js.Infinity false.
Proof. vm_compute. reflexivity. Qed.

Example default_avatar_7 :
  Auth.resolve_image_url None "42" "7"
  = "https://cdn.discordapp.com/embed/avatars/2.png".
Proof. reflexivity. Qed.

Example animated_avatar :
  Auth.resolve_image_url (Some "a_abc123") "42" "7"
  = "https://cdn.discordapp.com/avatars/42/a_abc123.gif".
Proof. reflexivity. Qed.

(** ** Facts about the table *)

Module StoreFacts.
Import Store.

Lemma selects_add_coins w n u : selects w (add_coins n u) = selects w u.
Proof. destruct w; reflexivity. Qed.

Lemma breaks_unique_add_coins d n u :
  breaks_unique d (add_coins n u) = breaks_unique d u.
Proof. reflexivity. Qed.

Lemma add_coins_add_coins n m u :
  add_coins m (add_coins n u) = add_coins (n + m) u.
Proof. destruct u; unfold add_coins; cbn; f_equal; lia. Qed.

Lemma add_coins_zero u : add_coins 0 u = u.
Proof. destruct u; unfold add_coins; cbn; f_equal; lia. Qed.

Lemma coins_add_coins n u : coins (add_coins n u) = coins u + n.
Proof. reflexivity. Qed.

Section UpdateFirst.
Variables (p : User -> bool) (f : User -> User).

Lemma update_first_none db :
  find p db = None -> update_first p f db = db.
Proof.
  induction db as [|u rest IH]; cbn; [reflexivity|].
  destruct (p u); [discriminate|].
  intros H; now rewrite IH.
Qed.

Lemma find_update_first_same db u :
  (forall x, p (f x) = p x) ->
  find p db = Some u ->
  find p (update_first p f db) = Some (f u).
Proof.
  intros Hp. induction db as [|v rest IH]; cbn; [discriminate|].
  destruct (p v) eqn:E.
  - intros [= ->]. cbn. now rewrite Hp, E.
  - intros H. cbn. rewrite E. auto.
Qed.

Lemma find_update_first_other (q : User -> bool) db u :
  (forall x, q (f x) = q x) ->
  find p db = Some u ->
  q u = false ->
  find q (update_first p f db) = find q db.
Proof.
  intros Hq. induction db as [|v rest IH]; cbn; [discriminate|].
  destruct (p v) eqn:E.
  - intros [= ->] Hu. cbn. now rewrite Hq, Hu.
  - intros H Hu. cbn. destruct (q v); [reflexivity|]. auto.
Qed.

Lemma existsb_update_first (q : User -> bool) db :
  (forall x, q (f x) = q x) ->
  existsb q (update_first p f db) = existsb q db.
Proof.
  intros Hq. induction db as [|v rest IH]; cbn; [reflexivity|].
  destruct (p v); cbn; [now rewrite Hq | now rewrite IH].
Qed.

Lemma Forall_update_first (P : User -> Prop) db :
  (forall x, p x = true -> P x -> P (f x)) ->
  Forall P db -> Forall P (update_first p f db).
Proof.
  intros Hf. induction 1 as [|v rest Hv Hrest IH]; cbn; [constructor|].
  destruct (p v) eqn:E; constructor; auto.
Qed.

Lemma Forall_update_first_found (P : User -> Prop) db u :
  find p db = Some u -> P (f u) ->
  Forall P db -> Forall P (update_first p f db).
Proof.
  intros Hfind Hu HF.
  induction HF as [|v rest Hv Hrest IH]; cbn in *; [constructor|].
  destruct (p v) eqn:E.
  - injection Hfind as ->. now constructor.
  - constructor; auto.
Qed.

Lemma update_first_twice (g : User -> User) db :
  (forall x, p (f x) = p x) ->
  update_first p g (update_first p f db)
  = update_first p (fun x => g (f x)) db.
Proof.
  intros Hp. induction db as [|v rest IH]; cbn; [reflexivity|].
  destruct (p v) eqn:E; cbn.
  - now rewrite Hp, E.
  - now rewrite E, IH.
Qed.

Lemma update_first_id db :
  (forall x, f x = x) -> update_first p f db = db.
Proof.
  intros Hf. induction db as [|v rest IH]; cbn; [reflexivity|].
  destruct (p v); [now rewrite Hf | now rewrite IH].
Qed.
End UpdateFirst.

Lemma find_some_selects w db u : lookup w db = Some u -> selects w u = true.
Proof. intros H. now apply find_some in H. Qed.

Lemma find_app_none (q : User -> bool) (db : DB) row :
  find q db = None ->
  find q (db ++ [row])%list = if q row then Some row else None.
Proof.
  induction db as [|v rest IH]; cbn; [reflexivity|].
  destruct (q v); [discriminate | exact IH].
Qed.

Lemma find_app_some (q : User -> bool) (db : DB) row u :
  find q db = Some u -> find q (db ++ [row])%list = Some u.
Proof.
  induction db as [|v rest IH]; cbn; [discriminate|].
  destruct (q v); [trivial | exact IH].
Qed.

Lemma holds_neq k k' : k <> k' -> holds (Some k) k' = false.
Proof. intros H. cbn. now apply String.eqb_neq. Qed.

Lemma holds_true col k : holds col k = true -> col = Some k.
Proof.
  destruct col as [v|]; cbn; [|discriminate].
  intros H. apply String.eqb_eq in H. now subst.
Qed.

End StoreFacts.

(** ** The primitives of the store, case by case *)

Module PrismaFacts.
Import Store StoreFacts.

Lemma create_ok d c db :
  c_coins d = Some c ->
  existsb (breaks_unique d) db = false ->
  create d db = ((db ++ [row_of (fresh_id db) d c])%list,
                 Ok (row_of (fresh_id db) d c)).
Proof. intros Hc Hu. unfold create. now rewrite Hc, Hu. Qed.

Lemma create_conflict d c db :
  c_coins d = Some c ->
  existsb (breaks_unique d) db = true ->
  create d db
  = (db, Thrown (PrismaClientKnownRequestError UniqueConstraintViolation)).
Proof. intros Hc Hu. unfold create. now rewrite Hc, Hu. Qed.

Lemma update_coins_found w n db u :
  lookup w db = Some u ->
  update_coins w (Some n) db
  = (update_first (selects w) (add_coins n) db, Ok (add_coins n u)).
Proof. intros H. unfold update_coins. now rewrite H. Qed.

Lemma update_coins_missing w n db :
  lookup w db = None ->
  update_coins w (Some n) db
  = (db, Thrown (PrismaClientKnownRequestError RecordNotFound)).
Proof. intros H. unfold update_coins. now rewrite H. Qed.

Lemma upsert_found w n d c db u :
  c_coins d = Some c ->
  lookup w db = Some u ->
  upsert w (Some n) d db
  = (update_first (selects w) (add_coins n) db, Ok (add_coins n u)).
Proof.
  intros Hc H. unfold upsert. rewrite Hc, H. now apply update_coins_found.
Qed.

Lemma upsert_missing w n d c db :
  c_coins d = Some c ->
  lookup w db = None ->
  upsert w (Some n) d db = create d db.
Proof. intros Hc H. unfold upsert. now rewrite Hc, H. Qed.

Lemma upsert_nan w d db : upsert w None d db = (db, Thrown PrismaClientValidationError).
Proof. reflexivity. Qed.

(** The lookup of a key after an update of the row another key selects. *)
Lemma lookup_after_update_same w n db u :
  lookup w db = Some u ->
  lookup w (update_first (selects w) (add_coins n) db) = Some (add_coins n u).
Proof.
  intros H. apply find_update_first_same; [|exact H].
  intros x. apply selects_add_coins.
Qed.

Lemma lookup_after_update_other w w' n db u :
  lookup w db = Some u ->
  selects w' u = false ->
  lookup w' (update_first (selects w) (add_coins n) db) = lookup w' db.
Proof.
  intros H Hu. unfold lookup.
  apply find_update_first_other with (u := u); auto.
Qed.

Lemma breaks_unique_after_update w n d db :
  existsb (breaks_unique d) (update_first (selects w) (add_coins n) db)
  = existsb (breaks_unique d) db.
Proof. apply existsb_update_first. intros x. apply breaks_unique_add_coins. Qed.

(** Non-negative balances through each write. *)
Lemma create_non_negative d db :
  (forall c, c_coins d = Some c -> 0 <= c) ->
  Forall non_negative db -> Forall non_negative (fst (create d db)).
Proof.
  intros Hc HF. unfold create.
  destruct (c_coins d) as [c|] eqn:E; [|exact HF].
  destruct (existsb (breaks_unique d) db); [exact HF|].
  cbn. apply Forall_app. split; [exact HF|].
  constructor; [|constructor]. unfold non_negative. cbn. auto.
Qed.

Lemma update_coins_non_negative w delta db :
  (forall u n, lookup w db = Some u -> delta = Some n -> 0 <= coins u + n) ->
  Forall non_negative db -> Forall non_negative (fst (update_coins w delta db)).
Proof.
  intros Hd HF. unfold update_coins.
  destruct delta as [n|]; [|exact HF].
  destruct (lookup w db) as [u|] eqn:E; [|exact HF].
  cbn. eapply Forall_update_first_found; eauto.
  unfold non_negative. rewrite coins_add_coins. auto.
Qed.

Lemma upsert_non_negative w inc d db :
  (forall n, inc = Some n -> 0 <= n) ->
  (forall c, c_coins d = Some c -> 0 <= c) ->
  Forall non_negative db -> Forall non_negative (fst (upsert w inc d db)).
Proof.
  intros Hinc Hc HF. unfold upsert.
  destruct inc as [n|]; [|exact HF].
  destruct (c_coins d) as [c|] eqn:E; [|exact HF].
  destruct (lookup w db) as [u|] eqn:L.
  - apply update_coins_non_negative; [|exact HF].
    intros u' n' Hu' [= <-]. rewrite L in Hu'. injection Hu' as <-.
    rewrite Forall_forall in HF. apply find_some in L.
    specialize (HF u (proj1 L)). unfold non_negative in HF.
    specialize (Hinc n eq_refl). lia.
  - apply create_non_negative; [|exact HF]. intros c' Hc'. apply Hc. congruence.
Qed.

End PrismaFacts.

(** ** The procedures of the router, case by case *)

Module RouterFacts.
Import Store StoreFacts PrismaFacts Router.

Lemma try_catch_state body db : fst (try_catch body db) = fst (body db).
Proof. unfold try_catch. now destruct (body db) as [db' [e|err]]. Qed.

Lemma bind_state {A B} (m : M A) (k : A -> M B) db :
  fst (bind m k db)
  = match snd (m db) with
    | Ok a => fst (k a (fst (m db)))
    | Thrown _ => fst (m db)
    end.
Proof. unfold bind. now destruct (m db) as [db' [a|err]]. Qed.

(** The check phase of a transfer either stops the call or leaves the
    table as it found it. *)
Lemma pay_check_passes input db s :
  lookup (WhereDiscordId (du_id (sender input))) db = Some s ->
  0 < coins s -> pay_coins input <= coins s ->
  pay_check input db = (db, Ok tt).
Proof.
  intros Hs Hpos Hle. unfold pay_check, bind, findUnique. rewrite Hs.
  replace (coins s <=? 0) with false by (symmetry; apply Z.leb_gt; lia).
  replace (coins s <? pay_coins input) with false
    by (symmetry; apply Z.ltb_ge; lia).
  reflexivity.
Qed.

Lemma pay_check_refuses input db s :
  lookup (WhereDiscordId (du_id (sender input))) db = Some s ->
  coins s <= 0 \/ coins s < pay_coins input ->
  pay_check input db = (db, Thrown insufficient_balance_error).
Proof.
  intros Hs Hc. unfold pay_check, bind, findUnique. rewrite Hs.
  replace ((coins s <=? 0) || (coins s <? pay_coins input)) with true;
    [reflexivity|].
  symmetry. apply orb_true_iff.
  destruct Hc; [left; apply Z.leb_le | right; apply Z.ltb_lt]; lia.
Qed.

Lemma pay_accepted input db s :
  lookup (WhereDiscordId (du_id (sender input))) db = Some s ->
  0 < coins s -> pay_coins input <= coins s ->
  payCoinsByUserId input db = try_catch (pay_commit input) db.
Proof.
  intros Hs Hpos Hle.
  unfold payCoinsByUserId, payCoinsByUserId_body, try_catch, bind.
  now rewrite (pay_check_passes input db s).
Qed.

Lemma pay_refused input db s :
  lookup (WhereDiscordId (du_id (sender input))) db = Some s ->
  coins s <= 0 \/ coins s < pay_coins input ->
  payCoinsByUserId input db = (db, InsufficientBalance).
Proof.
  intros Hs Hc.
  unfold payCoinsByUserId, payCoinsByUserId_body, try_catch, bind.
  now rewrite (pay_check_refuses input db s).
Qed.

Lemma pay_unknown_sender input db :
  lookup (WhereDiscordId (du_id (sender input))) db = None ->
  existsb (breaks_unique (sender_data input)) db = false ->
  payCoinsByUserId input db
  = ((db ++ [row_of (fresh_id db) (sender_data input) 0])%list,
     InsufficientBalance).
Proof.
  intros Hs Hu.
  unfold payCoinsByUserId, payCoinsByUserId_body, try_catch, bind, pay_check,
    bind, findUnique.
  rewrite Hs. fold (sender_data input).
  now rewrite (create_ok (sender_data input) 0 db).
Qed.

Lemma pay_unknown_sender_conflict input db :
  lookup (WhereDiscordId (du_id (sender input))) db = None ->
  existsb (breaks_unique (sender_data input)) db = true ->
  payCoinsByUserId input db = (db, DuplicateIdentity).
Proof.
  intros Hs Hu.
  unfold payCoinsByUserId, payCoinsByUserId_body, try_catch, bind, pay_check,
    bind, findUnique.
  rewrite Hs. fold (sender_data input).
  now rewrite (create_conflict (sender_data input) 0 db).
Qed.

(** The write phase, from a table in which the sender's row is [s]. *)
Lemma pay_commit_receiver_known input db s r :
  lookup (WhereDiscordId (du_id (sender input))) db = Some s ->
  lookup (WhereDiscordId (du_id (receiver input)))
    (update_first (selects (WhereDiscordId (du_id (sender input))))
       (add_coins (- pay_coins input)) db) = Some r ->
  try_catch (pay_commit input) db
  = (update_first (selects (WhereDiscordId (du_id (receiver input))))
       (add_coins (pay_coins input))
       (update_first (selects (WhereDiscordId (du_id (sender input))))
          (add_coins (- pay_coins input)) db),
     Returns (mkEnvelope SUCCESS (data_receiver (add_coins (pay_coins input) r)))).
Proof.
  intros Hs Hr. unfold try_catch, pay_commit, bind.
  rewrite (update_coins_found _ _ db s Hs).
  fold (receiver_data input).
  now rewrite (upsert_found _ _ (receiver_data input) (pay_coins input) _ r).
Qed.

Lemma pay_commit_receiver_new input db s :
  lookup (WhereDiscordId (du_id (sender input))) db = Some s ->
  lookup (WhereDiscordId (du_id (receiver input))) db = None ->
  existsb (breaks_unique (receiver_data input)) db = false ->
  let db1 := update_first (selects (WhereDiscordId (du_id (sender input))))
               (add_coins (- pay_coins input)) db in
  let row := row_of (fresh_id db1) (receiver_data input) (pay_coins input) in
  try_catch (pay_commit input) db
  = ((db1 ++ [row])%list, Returns (mkEnvelope SUCCESS (data_receiver row))).
Proof.
  intros Hs Hr Hu db1 row. unfold try_catch, pay_commit, bind.
  rewrite (update_coins_found _ _ db s Hs).
  fold (receiver_data input). fold db1.
  assert (Hr1 : lookup (WhereDiscordId (du_id (receiver input))) db1 = None).
  { unfold db1, lookup.
    destruct (selects (WhereDiscordId (du_id (receiver input))) s) eqn:E.
    - exfalso. apply find_some_selects in Hs as Hs'. cbn in E, Hs'.
      apply holds_true in E. rewrite E in Hs'. cbn in Hs'.
      apply String.eqb_eq in Hs'. rewrite Hs' in Hr. unfold lookup in *.
      congruence.
    - rewrite (find_update_first_other _ _ _ db s); auto. }
  rewrite (upsert_missing _ _ (receiver_data input) (pay_coins input) _
             eq_refl Hr1).
  rewrite (create_ok (receiver_data input) (pay_coins input) db1); auto.
  unfold db1. now rewrite breaks_unique_after_update.
Qed.

Lemma pay_commit_receiver_conflict input db s :
  lookup (WhereDiscordId (du_id (sender input))) db = Some s ->
  lookup (WhereDiscordId (du_id (receiver input))) db = None ->
  existsb (breaks_unique (receiver_data input)) db = true ->
  try_catch (pay_commit input) db
  = (update_first (selects (WhereDiscordId (du_id (sender input))))
       (add_coins (- pay_coins input)) db,
     DuplicateIdentity).
Proof.
  intros Hs Hr Hu. unfold try_catch, pay_commit, bind.
  rewrite (update_coins_found _ _ db s Hs).
  fold (receiver_data input).
  set (db1 := update_first _ _ db).
  assert (Hr1 : lookup (WhereDiscordId (du_id (receiver input))) db1 = None).
  { unfold db1, lookup.
    destruct (selects (WhereDiscordId (du_id (receiver input))) s) eqn:E.
    - exfalso. apply find_some_selects in Hs as Hs'. cbn in E, Hs'.
      apply holds_true in E. rewrite E in Hs'. cbn in Hs'.
      apply String.eqb_eq in Hs'. rewrite Hs' in Hr. unfold lookup in *.
      congruence.
    - rewrite (find_update_first_other _ _ _ db s); auto. }
  rewrite (upsert_missing _ _ (receiver_data input) (pay_coins input) _
             eq_refl Hr1).
  rewrite (create_conflict (receiver_data input) (pay_coins input) db1); auto.
  unfold db1. now rewrite breaks_unique_after_update.
Qed.

(** A row found under one chat-platform identifier answers to no other. *)
Lemma found_row_not_selected k k' db u :
  lookup (WhereDiscordId k) db = Some u ->
  k <> k' ->
  selects (WhereDiscordId k') u = false.
Proof.
  intros Hu Hk. apply find_some_selects in Hu. cbn in Hu |- *.
  apply holds_true in Hu. rewrite Hu. now apply holds_neq.
Qed.

Lemma pay_commit_sender_missing input db :
  lookup (WhereDiscordId (du_id (sender input))) db = None ->
  pay_commit input db
  = (db, Thrown (PrismaClientKnownRequestError RecordNotFound)).
Proof.
  intros Hs. unfold pay_commit, bind. now rewrite update_coins_missing.
Qed.

End RouterFacts.

(** ** Properties of the ledger *)

Module LedgerProperties.
Import Store StoreFacts PrismaFacts Router RouterFacts Fixtures.

(** Run on the table with every call answered, an operation whose amount
    is not negative keeps the balances non-negative. *)
Lemma run_keeps_balances_non_negative :
  forall (op : LedgerOp) (db : DB),
    amount_non_negative op ->
    all_non_negative db ->
    all_non_negative (fst (run op db)).
Proof.
  intros op db Hamount Hdb. unfold all_non_negative in *.
  destruct op as [i|i|i]; cbn [run];
    unfold sendCoinsByUserId, sendCoinsByGithubId, payCoinsByUserId;
    rewrite try_catch_state.
  - unfold sendCoinsByUserId_body. rewrite bind_state.
    assert (H : Forall non_negative
                  (fst (upsert (WhereDiscordId (du_id (su_user i)))
                          (Some (su_coins i))
                          (discord_create_data (su_user i)
                             (setThumbnailUrl (su_user i))
                             (Some (su_coins i))) db))).
    { apply upsert_non_negative; auto. }
    now destruct (snd _).
  - unfold sendCoinsByGithubId_body. rewrite bind_state.
    assert (H : Forall non_negative
                  (fst (upsert (WhereGithubId (gu_id (sg_user i)))
                          (Js.integer_of (Js.parseInt (sg_coins i)))
                          (github_create_data (sg_user i)
                             (Js.integer_of (Js.parseInt (sg_coins i)))) db))).
    { apply upsert_non_negative; auto. }
    now destruct (snd _).
  - assert (Hn : 0 <= pay_coins i) by now apply Hamount.
    destruct (lookup (WhereDiscordId (du_id (sender i))) db) as [s|] eqn:Hs.
    + destruct (Z_le_gt_dec (coins s) 0) as [Hle|Hgt];
        [|destruct (Z_lt_le_dec (coins s) (pay_coins i)) as [Hlt|Hge]].
      * fold (payCoinsByUserId_body i).
        rewrite <- try_catch_state. fold (payCoinsByUserId i).
        rewrite (pay_refused i db s); auto.
      * rewrite <- try_catch_state. fold (payCoinsByUserId i).
        rewrite (pay_refused i db s); auto.
      * rewrite <- try_catch_state. fold (payCoinsByUserId i).
        rewrite (pay_accepted i db s); auto; [|lia].
        rewrite try_catch_state. unfold pay_commit.
        rewrite bind_state, (update_coins_found _ _ db s Hs).
        cbn [fst snd]. rewrite bind_state.
        set (db1 := update_first _ _ db).
        assert (H1 : Forall non_negative db1).
        { unfold db1. eapply Forall_update_first_found; eauto.
          unfold non_negative. rewrite coins_add_coins. lia. }
        assert (H : Forall non_negative
                      (fst (upsert (WhereDiscordId (du_id (receiver i)))
                              (Some (pay_coins i))
                              (discord_create_data (receiver i)
                                 (setThumbnailUrl (receiver i))
                                 (Some (pay_coins i))) db1))).
        { apply upsert_non_negative; auto; now intros n [= <-]. }
        now destruct (snd _).
    + unfold payCoinsByUserId_body. rewrite bind_state.
      assert (Hc : pay_check i db
                   = bind (create (sender_data i))
                       (fun _ => throw insufficient_balance_error) db).
      { unfold pay_check, bind at 1, findUnique. now rewrite Hs. }
      rewrite Hc.
      assert (H : Forall non_negative (fst (create (sender_data i) db))).
      { apply create_non_negative; auto. intros c [= <-]. lia. }
      unfold bind. destruct (create (sender_data i) db) as [db' [u|e]]; auto.
Qed.

(** C2, as stated, fails: no amount is refused by the router.  A credit of
    -15 and a transfer of -3 both return a success envelope and both
    change the table. *)
Lemma non_positive_amounts_are_applied :
  sendCoinsByUserId (mkSendByUser alice_discord (-15)) [alice]
  = ([add_coins (-15) alice],
     Returns (mkEnvelope SUCCESS (data_user (add_coins (-15) alice))))
  /\ [add_coins (-15) alice] <> [alice]
  /\ payCoinsByUserId (mkPay bob_discord alice_discord (-3)) [alice; bob]
     = ([add_coins 3 alice; add_coins (-3) bob],
        Returns (mkEnvelope SUCCESS (data_receiver (add_coins (-3) bob))))
  /\ [add_coins 3 alice; add_coins (-3) bob] <> [alice; bob].
Proof.
  repeat split; try reflexivity; intros H; discriminate H.
Qed.

(** C2 (amended): for an amount <= 0 the router raises no invalid-amount
    error.  A credit to an existing user adds the amount as given and
    returns a success envelope; a transfer fails, with the
    insufficient-balance error and the table unchanged, when the sender's
    balance is <= 0 and otherwise goes on to its write phase.  The refusal
    of such an amount sits in the give-coins command: its handler answers
    with the invalid-amount message (not-allowed for a member without the
    role) before any call of the API, the table unchanged. *)
Theorem non_positive_amount_handling :
  forall (db : DB) (n : Z),
    n <= 0 ->
    (forall it : Bot.Interaction,
        Js.parseInt (Bot.option_coins it) = Js.Int n ->
        Bot.execute it db
        = (db, Bot.Content (if Bot.hasAdminRole it
                            then Bot.invalidAmount else Bot.notAllowed)))
    /\ (forall (u : DiscordUser) (row : User),
           lookup (WhereDiscordId (du_id u)) db = Some row ->
           sendCoinsByUserId (mkSendByUser u n) db
           = (update_first (selects (WhereDiscordId (du_id u)))
                (add_coins n) db,
              Returns (mkEnvelope SUCCESS (data_user (add_coins n row)))))
    /\ (forall (g : GithubUser) (text : string) (row : User),
           Js.parseInt text = Js.Int n ->
           lookup (WhereGithubId (gu_id g)) db = Some row ->
           sendCoinsByGithubId (mkSendByGithub g text) db
           = (update_first (selects (WhereGithubId (gu_id g)))
                (add_coins n) db,
              Returns (mkEnvelope SUCCESS (data_user (add_coins n row)))))
    /\ (forall (input : PayCoinsByUserIdInput) (s : User),
           pay_coins input = n ->
           lookup (WhereDiscordId (du_id (sender input))) db = Some s ->
           (coins s <= 0 ->
            payCoinsByUserId input db = (db, InsufficientBalance))
           /\ (0 < coins s ->
               payCoinsByUserId input db = try_catch (pay_commit input) db)).
Proof.
  intros db n Hn. repeat split.
  - intros it Hparse. unfold Bot.execute. rewrite Hparse.
    destruct (Bot.hasAdminRole it); cbn [negb]; [|reflexivity].
    cbn [Js.lt].
    replace (n <? 1) with true by (symmetry; apply Z.ltb_lt; lia).
    reflexivity.
  - intros u row Hrow.
    unfold sendCoinsByUserId, try_catch, sendCoinsByUserId_body, bind.
    erewrite upsert_found; [reflexivity | reflexivity | exact Hrow].
  - intros g text row Hparse Hrow.
    unfold sendCoinsByGithubId, try_catch, sendCoinsByGithubId_body, bind.
    cbn [sg_coins sg_user]. rewrite Hparse. cbn [Js.integer_of].
    erewrite upsert_found; [reflexivity | reflexivity | exact Hrow].
  - intros Hle. apply (pay_refused input db s); auto.
  - intros Hpos. apply (pay_accepted input db s); auto. lia.
Qed.

(** The amended C2 at the amount -15, on a table holding alice. *)
Lemma non_positive_amount_handling_witness :
  -15 <= 0
  /\ Bot.execute (Bot.mkInteraction true alice_discord "-15" "200") [alice]
     = ([alice], Bot.Content Bot.invalidAmount)
  /\ sendCoinsByUserId (mkSendByUser alice_discord (-15)) [alice]
     = ([add_coins (-15) alice],
        Returns (mkEnvelope SUCCESS (data_user (add_coins (-15) alice)))).
Proof.
  assert (H : -15 <= 0) by lia.
  destruct (non_positive_amount_handling [alice] (-15) H)
    as (Hcmd & Hcredit & _ & _).
  split; [exact H|]. split.
  - exact (Hcmd (Bot.mkInteraction true alice_discord "-15" "200") eq_refl).
  - exact (Hcredit alice_discord alice eq_refl).
Defined.

(** C3, as stated, fails twice.  When sender and receiver are one and the
    same user the balance does not decrease: it is back at 10 after the
    call.  And a receiver unknown under its identifier is not created when
    its user name is already taken: the call fails with the conflict error
    after the sender has been debited. *)
Lemma transfer_to_self_or_to_taken_name :
  (lookup (WhereDiscordId "100") [alice] = Some alice
   /\ 1 <= 4 <= coins alice
   /\ balance (WhereDiscordId "100")
        (fst (payCoinsByUserId (mkPay alice_discord alice_discord 4) [alice]))
      = Some 10)
  /\ (lookup (WhereDiscordId "300") [alice; carol] = None
      /\ payCoinsByUserId (mkPay carol_discord alice_discord 4) [alice; carol]
         = ([add_coins (-4) alice; carol], DuplicateIdentity)
      /\ lookup (WhereDiscordId "300") [add_coins (-4) alice; carol] = None).
Proof.
  repeat split; try reflexivity; cbn; lia.
Qed.

(** C3 (amended): for every transfer in which the sender exists with
    balance >= amount >= 1 and the receiver is another identifier: when
    the receiver exists, the call succeeds and echoes the updated receiver,
    the sender's balance decreases by exactly the amount, the receiver's
    increases by exactly the amount, and the sum of the two is unchanged;
    when the receiver does not exist and its new row collides with no
    existing row on a unique column, the receiver is created with a
    balance equal to the amount, the response echoes that row and the
    sender's balance decreases by the amount. *)
Theorem transfer_moves_amount :
  forall (input : PayCoinsByUserIdInput) (db : DB) (s : User),
    let S := WhereDiscordId (du_id (sender input)) in
    let R := WhereDiscordId (du_id (receiver input)) in
    let n := pay_coins input in
    lookup S db = Some s ->
    du_id (sender input) <> du_id (receiver input) ->
    1 <= n <= coins s ->
    (forall r : User,
        lookup R db = Some r ->
        snd (payCoinsByUserId input db)
        = Returns (mkEnvelope SUCCESS (data_receiver (add_coins n r)))
        /\ lookup R (fst (payCoinsByUserId input db)) = Some (add_coins n r)
        /\ balance S (fst (payCoinsByUserId input db)) = Some (coins s - n)
        /\ balance R (fst (payCoinsByUserId input db)) = Some (coins r + n)
        /\ (coins s - n) + (coins r + n) = coins s + coins r)
    /\ (lookup R db = None ->
        existsb (breaks_unique (receiver_data input)) db = false ->
        exists row : User,
          snd (payCoinsByUserId input db)
          = Returns (mkEnvelope SUCCESS (data_receiver row))
          /\ lookup R (fst (payCoinsByUserId input db)) = Some row
          /\ discordId row = Some (du_id (receiver input))
          /\ coins row = n
          /\ balance S (fst (payCoinsByUserId input db)) = Some (coins s - n)).
Proof.
  intros input db s S R n Hs Hneq [Hn1 Hn2].
  assert (Hacc : payCoinsByUserId input db = try_catch (pay_commit input) db).
  { apply (pay_accepted input db s); auto. lia. }
  assert (HS1 : lookup S (update_first (selects S) (add_coins (- n)) db)
                = Some (add_coins (- n) s))
    by now apply lookup_after_update_same.
  split.
  - intros r Hr.
    assert (HR1 : lookup R (update_first (selects S) (add_coins (- n)) db)
                  = Some r).
    { rewrite (lookup_after_update_other S R _ db s); auto.
      exact (found_row_not_selected _ _ db s Hs Hneq). }
    rewrite Hacc, (pay_commit_receiver_known input db s r Hs HR1).
    cbn [fst snd]. fold S R n.
    split; [reflexivity|]. split; [|split; [|split]].
    + now apply lookup_after_update_same.
    + unfold balance.
      rewrite (lookup_after_update_other R S _ _ r); auto.
      * rewrite HS1. reflexivity.
      * eapply found_row_not_selected; [exact HR1|]. congruence.
    + unfold balance. rewrite (lookup_after_update_same R n _ r); auto.
    + lia.
  - intros Hr Hfree.
    rewrite Hacc, (pay_commit_receiver_new input db s Hs Hr Hfree).
    cbn [fst snd]. fold S R n.
    set (db1 := update_first (selects S) (add_coins (- n)) db) in *.
    exists (row_of (fresh_id db1) (receiver_data input) n).
    assert (HR1 : lookup R db1 = None).
    { unfold db1. rewrite (lookup_after_update_other S R _ db s); auto.
      exact (found_row_not_selected _ _ db s Hs Hneq). }
    split; [reflexivity|]. split; [|split; [|split]].
    + unfold lookup. rewrite find_app_none by exact HR1.
      cbn. now rewrite String.eqb_refl.
    + reflexivity.
    + reflexivity.
    + unfold balance, lookup.
      rewrite (find_app_some _ _ _ (add_coins (- n) s)) by exact HS1.
      reflexivity.
Qed.

(** Alice (10 coins) pays 4 to bob (5 coins). *)
Lemma transfer_moves_amount_witness :
  balance (WhereDiscordId "100")
    (fst (payCoinsByUserId (mkPay bob_discord alice_discord 4) [alice; bob]))
  = Some 6
  /\ balance (WhereDiscordId "200")
       (fst (payCoinsByUserId (mkPay bob_discord alice_discord 4) [alice; bob]))
     = Some 9.
Proof.
  assert (Hs : lookup (WhereDiscordId "100") [alice; bob] = Some alice)
    by reflexivity.
  assert (Hneq : "100" <> "200") by discriminate.
  assert (Hn : 1 <= 4 <= coins alice) by (cbn; lia).
  destruct (transfer_moves_amount (mkPay bob_discord alice_discord 4)
              [alice; bob] alice Hs Hneq Hn) as [Hknown _].
  destruct (Hknown bob eq_refl) as (_ & _ & Hsender & Hreceiver & _).
  exact (conj Hsender Hreceiver).
Defined.

(** C5: when the sender exists and its balance is strictly below the
    amount, the transfer fails with the insufficient-balance error and the
    table is left exactly as it was, so neither the sender's nor the
    receiver's row is written. *)
Theorem transfer_without_funds_is_refused :
  forall (input : PayCoinsByUserIdInput) (db : DB) (s : User),
    lookup (WhereDiscordId (du_id (sender input))) db = Some s ->
    coins s < pay_coins input ->
    payCoinsByUserId input db = (db, InsufficientBalance).
Proof.
  intros input db s Hs Hlt. apply (pay_refused input db s); auto.
Qed.

(** Bob (5 coins) cannot pay 6. *)
Lemma transfer_without_funds_is_refused_witness :
  payCoinsByUserId (mkPay alice_discord bob_discord 6) [alice; bob]
  = ([alice; bob], InsufficientBalance).
Proof.
  apply (transfer_without_funds_is_refused
           (mkPay alice_discord bob_discord 6) [alice; bob] bob).
  - reflexivity.
  - cbn. lia.
Defined.

(** C6, as stated, fails: a sender unknown under its identifier whose user
    name is already held by another row is not created; the call fails
    with the conflict error and the table is unchanged. *)
Lemma unknown_sender_with_taken_name :
  lookup (WhereDiscordId "300") [alice; carol] = None
  /\ payCoinsByUserId (mkPay alice_discord carol_discord 4) [alice; carol]
     = ([alice; carol], DuplicateIdentity)
  /\ DuplicateIdentity <> InsufficientBalance.
Proof.
  repeat split; try reflexivity. intros H; discriminate H.
Qed.

(** C6 (amended): when the sender's identifier resolves to no user and the
    sender's new row collides with no existing row on a unique column, the
    transfer appends the sender with [coins = 0] and nothing else, and
    fails with the insufficient-balance error; every identifier other than
    the sender's, the receiver's included, resolves as before. *)
Theorem unknown_sender_is_provisioned :
  forall (input : PayCoinsByUserIdInput) (db : DB),
    lookup (WhereDiscordId (du_id (sender input))) db = None ->
    existsb (breaks_unique (sender_data input)) db = false ->
    exists row : User,
      payCoinsByUserId input db = ((db ++ [row])%list, InsufficientBalance)
      /\ coins row = 0
      /\ discordId row = Some (du_id (sender input))
      /\ lookup (WhereDiscordId (du_id (sender input))) (db ++ [row])%list
         = Some row
      /\ (forall k : string,
             k <> du_id (sender input) ->
             lookup (WhereDiscordId k) (db ++ [row])%list
             = lookup (WhereDiscordId k) db).
Proof.
  intros input db Hs Hfree.
  exists (row_of (fresh_id db) (sender_data input) 0).
  split; [now apply pay_unknown_sender|].
  split; [reflexivity|]. split; [reflexivity|]. split.
  - unfold lookup. rewrite find_app_none by exact Hs.
    cbn. now rewrite String.eqb_refl.
  - intros k Hk. unfold lookup.
    destruct (find (selects (WhereDiscordId k)) db) as [u|] eqn:E.
    + now apply find_app_some.
    + rewrite find_app_none by exact E. cbn.
      replace (String.eqb (du_id (sender input)) k) with false; [reflexivity|].
      symmetry. apply String.eqb_neq. congruence.
Qed.

(** Dave, unknown, tries to pay bob. *)
Lemma unknown_sender_is_provisioned_witness :
  exists row : User,
    payCoinsByUserId (mkPay bob_discord dave_discord 4) [alice; bob]
    = (([alice; bob] ++ [row])%list, InsufficientBalance)
    /\ coins row = 0.
Proof.
  destruct (unknown_sender_is_provisioned (mkPay bob_discord dave_discord 4)
              [alice; bob] eq_refl eq_refl) as (row & Hrun & Hcoins & _).
  exists row. exact (conj Hrun Hcoins).
Defined.

(** C10: a transfer in which sender and receiver carry the same identifier
    of an existing user, with 0 < amount <= balance, succeeds and leaves
    the whole table, hence that user's balance, as it was: the decrement
    and the increment meet on the same row. *)
Theorem self_transfer_is_neutral :
  forall (input : PayCoinsByUserIdInput) (db : DB) (s : User),
    du_id (receiver input) = du_id (sender input) ->
    lookup (WhereDiscordId (du_id (sender input))) db = Some s ->
    0 < pay_coins input <= coins s ->
    payCoinsByUserId input db
    = (db, Returns (mkEnvelope SUCCESS (data_receiver s)))
    /\ balance (WhereDiscordId (du_id (sender input)))
         (fst (payCoinsByUserId input db))
       = Some (coins s).
Proof.
  intros input db s Hsame Hs [Hpos Hle].
  assert (Hrun : payCoinsByUserId input db
                 = (db, Returns (mkEnvelope SUCCESS (data_receiver s)))).
  { rewrite (pay_accepted input db s) by (auto; lia).
    rewrite (pay_commit_receiver_known input db s
               (add_coins (- pay_coins input) s) Hs).
    - rewrite Hsame, update_first_twice by (intros x; apply selects_add_coins).
      rewrite update_first_id, add_coins_add_coins.
      + replace (- pay_coins input + pay_coins input) with 0 by lia.
        now rewrite add_coins_zero.
      + intros x. rewrite add_coins_add_coins.
        replace (- pay_coins input + pay_coins input) with 0 by lia.
        apply add_coins_zero.
    - rewrite Hsame. now apply lookup_after_update_same. }
  rewrite Hrun. split; [reflexivity|].
  cbn [fst]. unfold balance. now rewrite Hs.
Qed.

(** Alice pays herself 4 of her 10 coins. *)
Lemma self_transfer_is_neutral_witness :
  payCoinsByUserId (mkPay alice_discord alice_discord 4) [alice; bob]
  = ([alice; bob], Returns (mkEnvelope SUCCESS (data_receiver alice))).
Proof.
  apply (self_transfer_is_neutral (mkPay alice_discord alice_discord 4)
           [alice; bob] alice).
  - reflexivity.
  - reflexivity.
  - cbn. lia.
Defined.

(** C8, as stated, fails: for a code-host identifier no user carries, the
    user is not created when the e-mail address of the input already
    belongs to a row; the call fails with the conflict error. *)
Lemma github_credit_with_taken_email :
  lookup (WhereGithubId "9001") [carol] = None
  /\ Js.parseInt "15" = Js.Int 15
  /\ sendCoinsByGithubId (mkSendByGithub carol_github "15") [carol]
     = ([carol], DuplicateIdentity).
Proof. repeat split; reflexivity. Qed.

(** C8 (amended): [sendCoinsByGithubId] reads its [coins] string with
    [parseInt] (["15"] reads as 15); when the string reads as a number,
    no user carries the code-host identifier and the new row collides with
    no existing row on a unique column, it creates a user whose coins are
    the number read and whose thumbnail is the given [avatarUrl], letter
    for letter, and returns that user. *)
Theorem github_credit_creates_user :
  Js.parseInt "15" = Js.Int 15
  /\ forall (input : SendCoinsByGithubIdInput) (db : DB) (n : Z),
      lookup (WhereGithubId (gu_id (sg_user input))) db = None ->
      Js.parseInt (sg_coins input) = Js.Int n ->
      existsb (breaks_unique (github_create_data (sg_user input) (Some n))) db
      = false ->
      exists row : User,
        sendCoinsByGithubId input db
        = ((db ++ [row])%list, Returns (mkEnvelope SUCCESS (data_user row)))
        /\ coins row = n
        /\ thumbnail row = gu_avatarUrl (sg_user input)
        /\ githubId row = Some (gu_id (sg_user input))
        /\ lookup (WhereGithubId (gu_id (sg_user input))) (db ++ [row])%list
           = Some row.
Proof.
  split; [reflexivity|].
  intros input db n Hnone Hparse Hfree.
  exists (row_of (fresh_id db) (github_create_data (sg_user input) (Some n)) n).
  split; [|split; [|split; [|split]]]; try reflexivity.
  - unfold sendCoinsByGithubId, try_catch, sendCoinsByGithubId_body, bind.
    rewrite Hparse. cbn [Js.integer_of].
    erewrite upsert_missing; [|reflexivity|exact Hnone].
    erewrite create_ok; [reflexivity|reflexivity|exact Hfree].
  - unfold lookup. rewrite find_app_none by exact Hnone.
    cbn. now rewrite String.eqb_refl.
Qed.

(** The scenario of the specification: ["15"] for an unknown user. *)
Lemma github_credit_creates_user_witness :
  exists row : User,
    sendCoinsByGithubId (mkSendByGithub erin_github "15") [alice; carol]
    = (([alice; carol] ++ [row])%list,
       Returns (mkEnvelope SUCCESS (data_user row)))
    /\ coins row = 15
    /\ thumbnail row = "https://avatars.example.org/u/9002".
Proof.
  destruct (proj2 github_credit_creates_user
              (mkSendByGithub erin_github "15") [alice; carol] 15
              eq_refl eq_refl eq_refl)
    as (row & Hrun & Hcoins & Hthumb & _).
  exists row. exact (conj Hrun (conj Hcoins Hthumb)).
Defined.

(** C4, as stated, fails: the write carries no condition on the balance.
    Two transfers of alice's 10 coins both pass the check on the same
    table; the first one empties the balance, and the write phase of the
    second one still decrements it, to -10, credits the receiver and
    returns a success envelope. *)
Lemma stale_check_overdraws :
  pay_check (mkPay bob_discord alice_discord 10) [alice; bob]
  = ([alice; bob], Ok tt)
  /\ payCoinsByUserId (mkPay bob_discord alice_discord 10) [alice; bob]
     = ([add_coins (-10) alice; add_coins 10 bob],
        Returns (mkEnvelope SUCCESS (data_receiver (add_coins 10 bob))))
  /\ balance (WhereDiscordId "100") [add_coins (-10) alice; add_coins 10 bob]
     = Some 0
  /\ try_catch (pay_commit (mkPay bob_discord alice_discord 10))
       [add_coins (-10) alice; add_coins 10 bob]
     = ([add_coins (-20) alice; add_coins 20 bob],
        Returns (mkEnvelope SUCCESS (data_receiver (add_coins 20 bob))))
  /\ balance (WhereDiscordId "100") [add_coins (-20) alice; add_coins 20 bob]
     = Some (-10)
  /\ balance (WhereDiscordId "200") [add_coins (-20) alice; add_coins 20 bob]
     = Some 25.
Proof. repeat split; reflexivity. Qed.

(** C4 (amended): in [payCoinsByUserId] the condition on the balance is
    tested by the read that precedes the write, not by the write.  The
    write phase is reached only when that read found the sender with
    [coins > 0] and [coins >= amount], and the read leaves the table
    untouched.  The write phase itself carries no condition: from any table
    in which the sender has a row, whatever its balance, it subtracts the
    amount from that balance (a transfer to oneself adds it back) and never
    ends with the insufficient-balance error; so a transfer whose check
    passed still debits the balance other requests have left in the
    meantime.  When the write phase finds no row for the sender it raises
    record-not-found, after which nothing else is written (the receiver is
    not touched) and the call ends without a result. *)
Theorem transfer_guard_is_check_time :
  forall (input : PayCoinsByUserIdInput) (db : DB),
    let S := WhereDiscordId (du_id (sender input)) in
    (forall db' : DB,
        pay_check input db = (db', Ok tt) ->
        db' = db
        /\ exists s : User,
             lookup S db = Some s /\ 0 < coins s /\ pay_coins input <= coins s)
    /\ (forall s : User,
           lookup S db = Some s ->
           snd (try_catch (pay_commit input) db) <> InsufficientBalance
           /\ (du_id (sender input) <> du_id (receiver input) ->
               balance S (fst (try_catch (pay_commit input) db))
               = Some (coins s - pay_coins input))
           /\ (du_id (receiver input) = du_id (sender input) ->
               balance S (fst (try_catch (pay_commit input) db))
               = Some (coins s)))
    /\ (forall (others : DB -> DB) (s s' : User),
           lookup S db = Some s ->
           0 < coins s -> pay_coins input <= coins s ->
           lookup S (others db) = Some s' ->
           du_id (sender input) <> du_id (receiver input) ->
           balance S
             (Runtime.table
                (fst (Runtime.payCoinsByUserId_in input
                        (Runtime.mkWorld db
                           [Runtime.Quiet; Runtime.Meanwhile others]))))
           = Some (coins s' - pay_coins input))
    /\ (lookup S db = None ->
        try_catch (pay_commit input) db = (db, ReturnsUndefined)).
Proof.
  intros input db S. subst S.
  set (S := WhereDiscordId (du_id (sender input))).
  assert (Hwrite : forall (t : DB) (s : User),
             lookup S t = Some s ->
             snd (try_catch (pay_commit input) t) <> InsufficientBalance
             /\ (du_id (sender input) <> du_id (receiver input) ->
                 balance S (fst (try_catch (pay_commit input) t))
                 = Some (coins s - pay_coins input))
             /\ (du_id (receiver input) = du_id (sender input) ->
                 balance S (fst (try_catch (pay_commit input) t))
                 = Some (coins s))).
  { intros t s Hs.
    assert (HS1 : lookup S (update_first (selects S)
                              (add_coins (- pay_coins input)) t)
                  = Some (add_coins (- pay_coins input) s))
      by now apply lookup_after_update_same.
    unfold try_catch, pay_commit, bind.
    rewrite (update_coins_found _ _ t s Hs). fold S.
    set (t1 := update_first (selects S) (add_coins (- pay_coins input)) t)
      in *.
    set (d := discord_create_data (receiver input)
                (setThumbnailUrl (receiver input)) (Some (pay_coins input))).
    destruct (lookup (WhereDiscordId (du_id (receiver input))) t1)
      as [u|] eqn:Hr.
    - rewrite (upsert_found _ _ d (pay_coins input) t1 u eq_refl Hr).
      cbn [fst snd ret]. split; [discriminate|]. split.
      + intros Hneq. unfold balance.
        rewrite (lookup_after_update_other _ S _ t1 u Hr).
        * rewrite HS1. reflexivity.
        * eapply found_row_not_selected; [exact Hr|]. congruence.
      + intros Hsame. rewrite Hsame in *. fold S in Hr. unfold balance.
        rewrite (lookup_after_update_same S _ t1 u Hr).
        rewrite HS1 in Hr. injection Hr as <-. cbn. f_equal. lia.
    - rewrite (upsert_missing _ _ d (pay_coins input) t1 eq_refl Hr).
      assert (Hself : du_id (receiver input) <> du_id (sender input)).
      { intros E. rewrite E in Hr. fold S in Hr. congruence. }
      destruct (existsb (breaks_unique d) t1) eqn:Hfree.
      + rewrite (create_conflict d (pay_coins input) t1 eq_refl Hfree).
        cbn [fst snd ret]. split; [discriminate|]. split.
        * intros _. unfold balance. now rewrite HS1.
        * intros E. contradiction.
      + rewrite (create_ok d (pay_coins input) t1 eq_refl Hfree).
        cbn [fst snd ret]. split; [discriminate|]. split.
        * intros _. unfold balance, lookup.
          rewrite (find_app_some _ _ _ _ HS1). reflexivity.
        * intros E. contradiction. }
  split; [|split; [|split]].
  - intros db' Hcheck. unfold pay_check, bind, findUnique in Hcheck.
    fold S in Hcheck.
    destruct (lookup S db) as [s|] eqn:Hs.
    + destruct (coins s <=? 0) eqn:E1; [discriminate|].
      destruct (coins s <? pay_coins input) eqn:E2; [discriminate|].
      cbn in Hcheck. injection Hcheck as <-.
      split; [reflexivity|]. exists s.
      apply Z.leb_gt in E1. apply Z.ltb_ge in E2. auto.
    + destruct (create _ db) as [db2 [u|e]]; discriminate.
  - intros s Hs. exact (Hwrite db s Hs).
  - intros others s s' Hs Hpos Hle Hs' Hneq.
    assert (Hrun : Runtime.payCoinsByUserId_in input
                     (Runtime.mkWorld db
                        [Runtime.Quiet; Runtime.Meanwhile others])
                   = (Runtime.calm
                        (fst (try_catch (pay_commit input) (others db))),
                      snd (try_catch (pay_commit input) (others db)))).
    { unfold Runtime.payCoinsByUserId_in, Runtime.try_catch_in,
        Runtime.bindW, Runtime.pay_check_in, Runtime.bindW.
      unfold Runtime.call at 1. cbn [Runtime.events Runtime.table].
      cbn [findUnique fst snd]. fold S. rewrite Hs.
      replace ((coins s <=? 0) || (coins s <? pay_coins input)) with false
        by (symmetry; apply orb_false_iff; split;
            [apply Z.leb_gt | apply Z.ltb_ge]; lia).
      cbn [Runtime.retW].
      unfold Runtime.pay_commit_in, Runtime.bindW, Runtime.call.
      cbn [Runtime.events Runtime.table].
      unfold try_catch, pay_commit, bind. fold S.
      rewrite (update_coins_found S _ (others db) s' Hs').
      cbn [fst snd Runtime.events Runtime.table].
      now destruct (upsert _ _ _ _) as [t2 [r|e]]. }
    rewrite Hrun. cbn [fst Runtime.table Runtime.calm].
    exact (proj1 (proj2 (Hwrite (others db) s' Hs')) Hneq).
  - intros Hs. unfold try_catch.
    now rewrite (pay_commit_sender_missing input db Hs).
Qed.

(** The write phase of a payment of 6 by bob, who has 5 coins. *)
Lemma transfer_guard_is_check_time_witness :
  balance (WhereDiscordId "200")
    (fst (try_catch (pay_commit (mkPay alice_discord bob_discord 6))
            [alice; bob]))
  = Some (coins bob - 6)
  /\ coins bob - 6 < 0.
Proof.
  assert (Hneq : "200" <> "100") by discriminate.
  split; [|cbn; lia].
  exact (proj1 (proj2 (proj1 (proj2 (transfer_guard_is_check_time
                                       (mkPay alice_discord bob_discord 6)
                                       [alice; bob]))
                         bob eq_refl)) Hneq).
Defined.

(** C7 (the code departs from it): the catch block classifies three
    families of errors and has no last case.  A known Prisma error other
    than the unique-constraint one, a validation error and a connection
    error all fall through it, and the call returns [undefined]: neither a
    success envelope nor a classified error.  [sendCoinsByGithubId] with
    the coins string ["abc"] is such a call. *)
Theorem unclassified_errors_return_undefined :
  catch_block (PrismaClientKnownRequestError RecordNotFound) = ReturnsUndefined
  /\ catch_block PrismaClientValidationError = ReturnsUndefined
  /\ catch_block PrismaClientInitializationError = ReturnsUndefined
  /\ Js.parseInt "abc" = Js.NaN
  /\ sendCoinsByGithubId (mkSendByGithub erin_github "abc") [alice]
     = ([alice], ReturnsUndefined)
  /\ try_catch (pay_commit (mkPay bob_discord dave_discord 4)) [alice; bob]
     = ([alice; bob], ReturnsUndefined).
Proof. repeat split; reflexivity. Qed.

End LedgerProperties.

(** ** Properties of the thumbnail resolver *)

Module ThumbnailProperties.
Import Auth.

Lemma append_assoc (a b c : string) : (a ++ b) ++ c = a ++ (b ++ c).
Proof. induction a as [|ch a IH]; cbn; [reflexivity | now rewrite IH]. Qed.

Lemma length_append (a b : string) :
  String.length (a ++ b) = (String.length a + String.length b)%nat.
Proof. induction a as [|ch a IH]; cbn; [reflexivity | now rewrite IH]. Qed.

Lemma substring_whole (p : string) : substring 0 (String.length p) p = p.
Proof. induction p as [|ch p IH]; cbn; [reflexivity | now rewrite IH]. Qed.

Lemma substring_tail (a p : string) :
  substring (String.length a) (String.length p) (a ++ p) = p.
Proof. induction a as [|ch a IH]; cbn; [apply substring_whole | exact IH]. Qed.

(** What a string ends with is decided by its tail of the same length. *)
Lemma endsWith_append (a p q : string) :
  String.length p = String.length q ->
  Js.endsWith (a ++ p) q = String.eqb p q.
Proof.
  intros Hlen. unfold Js.endsWith. rewrite length_append, <- Hlen.
  replace (String.length p <=? String.length a + String.length p)%nat
    with true by (symmetry; apply Nat.leb_le; lia).
  replace (String.length a + String.length p - String.length p)%nat
    with (String.length a) by lia.
  now rewrite substring_tail.
Qed.

Lemma avatar_url_split (hash i : string) (format : string) :
  "https://cdn.discordapp.com/avatars/" ++ i ++ "/" ++ hash ++ "." ++ format
  = ("https://cdn.discordapp.com/avatars/" ++ i ++ "/" ++ hash)
      ++ ("." ++ format).
Proof. now rewrite !append_assoc. Qed.

(** C9, as stated, fails.  The index is not always one of the default
    avatars: the discriminator ["abc"] gives [NaN.png] and ["-7"] gives
    [-2.png], the remainder following the sign of the dividend.  And
    [profile] is not free of side effects: it writes the URL into the
    [image_url] of its argument. *)
Lemma default_avatar_index_out_of_range :
  resolve_image_url None "42" "abc"
  = "https://cdn.discordapp.com/embed/avatars/NaN.png"
  /\ resolve_image_url None "42" "-7"
     = "https://cdn.discordapp.com/embed/avatars/-2.png"
  /\ image_url
       (fst (profile "c1" (mkDiscordProfile "42" "dan" None None "7" "")))
     <> image_url (mkDiscordProfile "42" "dan" None None "7" "").
Proof.
  repeat split; try reflexivity. intros H; discriminate H.
Qed.

(** C9 (amended): the thumbnail [profile] returns raises no error and
    depends on the avatar hash, the account identifier and the discriminator
    alone, whatever [createId] yields; [profile] also stores it in the
    [image_url] of its argument, which it changes in nothing else.  Without
    an avatar hash it is the default-avatar URL of index
    [parseInt(discriminator) % 5]: when [parseInt] reads the discriminator
    as a number [n >= 0] the index is [n mod 5], one of 0..4 (the
    discriminator ["7"] gives 2); when it reads a negative number the index
    is the remainder, not above 0, and when it reads no finite number the
    index text is [NaN].  With an avatar hash it is the per-account URL,
    ending in [.gif] exactly when the hash starts with ["a_"] and in [.png]
    otherwise. *)
Theorem thumbnail_resolver_rule :
  (forall (cuid cuid' : string) (p p' : DiscordProfile),
      avatar p = avatar p' -> id p = id p' ->
      discriminator p = discriminator p' ->
      pu_thumbnail (snd (profile cuid p))
      = pu_thumbnail (snd (profile cuid' p')))
  /\ (forall (cuid : string) (p : DiscordProfile),
         fst (profile cuid p)
         = mkDiscordProfile (id p) (username p) (email p) (avatar p)
             (discriminator p) (pu_thumbnail (snd (profile cuid p))))
  /\ (forall (cuid : string) (p : DiscordProfile) (n : Z),
         avatar p = None ->
         Js.parseInt (discriminator p) = Js.Int n ->
         (0 <= n ->
          pu_thumbnail (snd (profile cuid p))
          = "https://cdn.discordapp.com/embed/avatars/"
              ++ Js.number_to_string (Js.Int (n mod 5)) ++ ".png"
          /\ 0 <= n mod 5 < 5)
         /\ (n < 0 ->
             pu_thumbnail (snd (profile cuid p))
             = "https://cdn.discordapp.com/embed/avatars/"
                 ++ Js.number_to_string (Js.Int (Z.rem n 5)) ++ ".png"
             /\ -5 < Z.rem n 5 <= 0))
  /\ (forall (cuid : string) (p : DiscordProfile),
         avatar p = None ->
         Js.integer_of (Js.parseInt (discriminator p)) = None ->
         pu_thumbnail (snd (profile cuid p))
         = "https://cdn.discordapp.com/embed/avatars/NaN.png")
  /\ (forall (cuid : string) (p : DiscordProfile),
         avatar p = None -> discriminator p = "7" ->
         pu_thumbnail (snd (profile cuid p))
         = "https://cdn.discordapp.com/embed/avatars/2.png")
  /\ (forall (cuid : string) (p : DiscordProfile) (hash : string),
         avatar p = Some hash ->
         pu_thumbnail (snd (profile cuid p))
         = "https://cdn.discordapp.com/avatars/" ++ id p ++ "/" ++ hash
             ++ (if Js.startsWith hash "a_" then ".gif" else ".png")
         /\ Js.endsWith (pu_thumbnail (snd (profile cuid p))) ".gif"
            = Js.startsWith hash "a_"
         /\ Js.endsWith (pu_thumbnail (snd (profile cuid p))) ".png"
            = negb (Js.startsWith hash "a_")).
Proof.
  split; [|split; [|split; [|split; [|split]]]].
  - intros cuid cuid' p p' Ha Hi Hd. cbn. now rewrite Ha, Hi, Hd.
  - reflexivity.
  - intros cuid p n Ha Hparse. cbn. rewrite Ha. cbn [resolve_image_url].
    rewrite Hparse. cbn [Js.rem Z.eqb]. split.
    + intros Hn. split; [|apply Z.mod_pos_bound; lia].
      now rewrite Z.rem_mod_nonneg by lia.
    + intros Hn. split; [reflexivity|].
      pose proof (Z.rem_bound_pos_neg n 5). lia.
  - intros cuid p Ha Hparse. cbn. rewrite Ha. cbn [resolve_image_url].
    destruct (Js.parseInt (discriminator p)); try reflexivity.
    discriminate Hparse.
  - intros cuid p Ha Hd. cbn. now rewrite Ha, Hd.
  - intros cuid p hash Ha. cbn. rewrite Ha. cbn [resolve_image_url].
    rewrite avatar_url_split.
    destruct (Js.startsWith hash "a_"); repeat split;
      try now rewrite endsWith_append by reflexivity.
    all: now rewrite <- avatar_url_split.
Qed.

(** The discriminator ["0042"] reads as 42 and selects avatar 2; the hash
    ["a_abc123"] gives an animated image. *)
Lemma thumbnail_resolver_rule_witness :
  pu_thumbnail
    (snd (profile "c1" (mkDiscordProfile "1" "dan" None None "0042" "")))
  = "https://cdn.discordapp.com/embed/avatars/"
      ++ Js.number_to_string (Js.Int (42 mod 5)) ++ ".png"
  /\ Js.endsWith
       (pu_thumbnail
          (snd (profile "c1"
                  (mkDiscordProfile "42" "dan" None (Some "a_abc123") "7" ""))))
       ".gif"
     = Js.startsWith "a_abc123" "a_".
Proof.
  assert (Hn : 0 <= 42) by lia.
  destruct thumbnail_resolver_rule as (_ & _ & Hindex & _ & _ & Hhash).
  split.
  - exact (proj1 (proj1 (Hindex "c1"
                           (mkDiscordProfile "1" "dan" None None "0042" "")
                           42 eq_refl eq_refl) Hn)).
  - exact (proj1 (proj2 (Hhash "c1"
                           (mkDiscordProfile "42" "dan" None (Some "a_abc123")
                              "7" "")
                           "a_abc123" eq_refl))).
Defined.

End ThumbnailProperties.


(** ** Whole-table facts about the writes of the store *)

Module TableFacts.
Import Store StoreFacts PrismaFacts TableVocabulary.

Lemma total_cons u (db : DB) : total (u :: db) = coins u + total db.
Proof. reflexivity. Qed.

Lemma total_app (a b : DB) : total (a ++ b)%list = total a + total b.
Proof.
  induction a as [|u a IH]; [reflexivity|].
  cbn [app]. rewrite !total_cons, IH. lia.
Qed.

Lemma total_update_first_found p n db u :
  find p db = Some u ->
  total (update_first p (add_coins n) db) = total db + n.
Proof.
  revert u. induction db as [|v rest IH]; cbn [find update_first];
    [discriminate|].
  intros u. destruct (p v) eqn:E.
  - intros _. rewrite !total_cons, coins_add_coins. lia.
  - intros H. rewrite !total_cons, (IH u H). lia.
Qed.

Lemma same_identity_refl u : same_identity u u.
Proof.
  unfold same_identity. replace (coins u - coins u) with 0 by lia.
  now rewrite add_coins_zero.
Qed.

Lemma same_identity_add_coins n u : same_identity u (add_coins n u).
Proof.
  unfold same_identity. rewrite coins_add_coins. f_equal. lia.
Qed.

Lemma same_identity_trans a b c :
  same_identity a b -> same_identity b c -> same_identity a c.
Proof.
  unfold same_identity. intros Hab Hbc.
  transitivity (add_coins ((coins b - coins a) + (coins c - coins b)) a).
  - rewrite <- add_coins_add_coins, <- Hab. exact Hbc.
  - f_equal. lia.
Qed.

Lemma Forall2_same_identity_refl db : Forall2 same_identity db db.
Proof. induction db; constructor; auto using same_identity_refl. Qed.

Lemma Forall2_same_identity_trans a b c :
  Forall2 same_identity a b -> Forall2 same_identity b c ->
  Forall2 same_identity a c.
Proof.
  intros Hab. revert c. induction Hab as [|x y a b Hxy Hab IH]; intros c Hbc.
  - inversion Hbc. constructor.
  - inversion Hbc as [|y' z b' c' Hyz Hbc']; subst. constructor.
    + eapply same_identity_trans; eauto.
    + auto.
Qed.

Lemma Forall2_update_first p n db :
  Forall2 same_identity db (update_first p (add_coins n) db).
Proof.
  induction db as [|v rest IH]; cbn; [constructor|].
  destruct (p v); constructor;
    auto using same_identity_add_coins, same_identity_refl,
      Forall2_same_identity_refl.
Qed.

Lemma grows_refl k db : grows k db db.
Proof.
  exists db, []. rewrite app_nil_r. repeat split.
  - apply Forall2_same_identity_refl.
  - cbn. lia.
Qed.

Lemma grows_weaken k k' db db' : (k <= k')%nat -> grows k db db' -> grows k' db db'.
Proof.
  intros Hk (upd & extra & -> & H2 & Hlen). exists upd, extra.
  repeat split; auto. lia.
Qed.

Lemma grows_trans k1 k2 a b c :
  grows k1 a b -> grows k2 b c -> grows (k1 + k2) a c.
Proof.
  intros (u1 & e1 & -> & H1 & L1) (u2 & e2 & -> & H2 & L2).
  apply Forall2_app_inv_l in H2 as (u2a & u2b & Ha & Hb & ->).
  exists u2a, (u2b ++ e2)%list. repeat split.
  - now rewrite app_assoc.
  - eapply Forall2_same_identity_trans; eauto.
  - rewrite length_app. apply Forall2_length in Hb. lia.
Qed.

Lemma grows_update_first p n db :
  grows 0 db (update_first p (add_coins n) db).
Proof.
  exists (update_first p (add_coins n) db), []. rewrite app_nil_r.
  repeat split; [apply Forall2_update_first | cbn; lia].
Qed.

Lemma grows_create d db : grows 1 db (fst (create d db)).
Proof.
  unfold create. destruct (c_coins d) as [c|]; [|apply grows_refl].
  destruct (existsb (breaks_unique d) db); [apply grows_refl|].
  cbn. exists db, [row_of (fresh_id db) d c]. repeat split.
  - apply Forall2_same_identity_refl.
  - cbn. lia.
Qed.

Lemma grows_update_coins w delta db : grows 0 db (fst (update_coins w delta db)).
Proof.
  unfold update_coins. destruct delta as [n|]; [|apply grows_refl].
  destruct (lookup w db); [apply grows_update_first | apply grows_refl].
Qed.

Lemma grows_upsert w inc d db : grows 1 db (fst (upsert w inc d db)).
Proof.
  unfold upsert. destruct inc as [n|]; [|apply grows_refl].
  destruct (c_coins d) eqn:E; [|apply grows_refl].
  destruct (lookup w db).
  - apply (grows_weaken 0); [lia | apply grows_update_coins].
  - apply grows_create.
Qed.











End TableFacts.


(** ** The outcomes of the procedures, exhaustively *)

Module RouterCases.
Import Store StoreFacts PrismaFacts Router RouterFacts Cases.

Lemma integer_of_some x n : Js.integer_of x = Some n -> x = Js.Int n.
Proof. destruct x; cbn; congruence. Qed.

Lemma upsert_cases w n d c db :
  c_coins d = Some c -> upsert_case w n d c db (upsert w (Some n) d db).
Proof.
  intros Hc. destruct (lookup w db) as [u|] eqn:L.
  - rewrite (upsert_found w n d c db u Hc L). now constructor.
  - rewrite (upsert_missing w n d c db Hc L).
    destruct (existsb (breaks_unique d) db) eqn:E.
    + rewrite (create_conflict d c db Hc E). now constructor.
    + rewrite (create_ok d c db Hc E). now constructor.
Qed.

(** A credit is one upsert. *)
Lemma sendCoinsByUserId_unfold input db :
  sendCoinsByUserId input db
  = match upsert (WhereDiscordId (du_id (su_user input)))
            (Some (su_coins input))
            (discord_create_data (su_user input)
               (setThumbnailUrl (su_user input)) (Some (su_coins input))) db
    with
    | (db', Ok user) => (db', Returns (mkEnvelope SUCCESS (data_user user)))
    | (db', Thrown e) => (db', catch_block e)
    end.
Proof.
  unfold sendCoinsByUserId, try_catch, sendCoinsByUserId_body, bind.
  now destruct (upsert _ _ _ db) as [db' [u|e]].
Qed.

Lemma sendCoinsByGithubId_unfold input db n :
  Js.integer_of (Js.parseInt (sg_coins input)) = Some n ->
  sendCoinsByGithubId input db
  = match upsert (WhereGithubId (gu_id (sg_user input))) (Some n)
            (github_create_data (sg_user input) (Some n)) db
    with
    | (db', Ok user) => (db', Returns (mkEnvelope SUCCESS (data_user user)))
    | (db', Thrown e) => (db', catch_block e)
    end.
Proof.
  intros Hn.
  unfold sendCoinsByGithubId, try_catch, sendCoinsByGithubId_body, bind.
  rewrite Hn. now destruct (upsert _ _ _ db) as [db' [u|e]].
Qed.

Lemma sendCoinsByGithubId_nan input db :
  Js.integer_of (Js.parseInt (sg_coins input)) = None ->
  sendCoinsByGithubId input db = (db, ReturnsUndefined).
Proof.
  intros Hn.
  unfold sendCoinsByGithubId, try_catch, sendCoinsByGithubId_body, bind.
  now rewrite Hn.
Qed.

(** The write phase of a transfer whose sender is found. *)
Lemma pay_commit_found input db s :
  lookup (WhereDiscordId (du_id (sender input))) db = Some s ->
  try_catch (pay_commit input) db
  = match upsert (WhereDiscordId (du_id (receiver input)))
            (Some (pay_coins input)) (receiver_data input)
            (update_first (selects (WhereDiscordId (du_id (sender input))))
               (add_coins (- pay_coins input)) db)
    with
    | (db', Ok r) => (db', Returns (mkEnvelope SUCCESS (data_receiver r)))
    | (db', Thrown e) => (db', catch_block e)
    end.
Proof.
  intros Hs. unfold try_catch, pay_commit, bind.
  rewrite (update_coins_found _ _ db s Hs). fold (receiver_data input).
  now destruct (upsert _ _ _ _) as [db' [u|e]].
Qed.

Lemma pay_cases input db : pay_case input db (payCoinsByUserId input db).
Proof.
  destruct (lookup (WhereDiscordId (du_id (sender input))) db) as [s|] eqn:Hs.
  - destruct (Z_le_gt_dec (coins s) 0) as [Hle|Hgt];
      [|destruct (Z_lt_le_dec (coins s) (pay_coins input)) as [Hlt|Hge]].
    + rewrite (pay_refused input db s); auto. apply (pay_refuses _ _ s); auto.
    + rewrite (pay_refused input db s); auto. apply (pay_refuses _ _ s); auto.
    + rewrite (pay_accepted input db s) by (auto; lia).
      rewrite (pay_commit_found input db s Hs).
      pose proof (upsert_cases (WhereDiscordId (du_id (receiver input)))
                    (pay_coins input) (receiver_data input) (pay_coins input)
                    (update_first
                       (selects (WhereDiscordId (du_id (sender input))))
                       (add_coins (- pay_coins input)) db) eq_refl) as Hu.
      destruct (upsert _ _ _ _) as [db' [r|e]] eqn:E.
      * apply (pay_writes input db s (db', Ok r)); auto; lia.
      * apply (pay_writes input db s (db', Thrown e)); auto; lia.
  - destruct (existsb (breaks_unique (sender_data input)) db) eqn:E.
    + rewrite pay_unknown_sender_conflict; auto. now constructor.
    + rewrite pay_unknown_sender; auto. now constructor.
Qed.

End RouterCases.


(** ** Further properties of the ledger procedures *)

Module LedgerExtras.
Import Store StoreFacts PrismaFacts Router RouterFacts Cases RouterCases.
Import Queries TableVocabulary TableFacts Fixtures.

(** X3: the transfer is not atomic.  When the sender can pay, the receiver
    is unknown and the receiver's new row collides with an existing one,
    the call ends with the conflict error after the sender was debited: the
    sender has lost the amount, no row was added and the amount has left
    the sum of all balances. *)
Theorem failed_receiver_creation_burns_coins :
  forall (input : PayCoinsByUserIdInput) (db : DB) (s : User),
    lookup (WhereDiscordId (du_id (sender input))) db = Some s ->
    0 < coins s -> pay_coins input <= coins s ->
    lookup (WhereDiscordId (du_id (receiver input))) db = None ->
    existsb (breaks_unique (receiver_data input)) db = true ->
    snd (payCoinsByUserId input db) = DuplicateIdentity
    /\ balance (WhereDiscordId (du_id (sender input)))
         (fst (payCoinsByUserId input db))
       = Some (coins s - pay_coins input)
    /\ getByDiscordId (du_id (receiver input)) (fst (payCoinsByUserId input db))
       = None
    /\ List.length (fst (payCoinsByUserId input db)) = List.length db
    /\ total (fst (payCoinsByUserId input db)) = total db - pay_coins input.
Proof.
  intros input db s Hs Hpos Hle Hr Hbusy.
  rewrite (pay_accepted input db s Hs Hpos Hle).
  rewrite (pay_commit_receiver_conflict input db s Hs Hr Hbusy).
  cbn [fst snd]. split; [reflexivity|].
  assert (Hneq : du_id (sender input) <> du_id (receiver input)).
  { intros E. rewrite E in Hs. congruence. }
  split; [|split; [|split]].
  - unfold balance. now rewrite (lookup_after_update_same _ _ db s Hs).
  - unfold getByDiscordId.
    rewrite (lookup_after_update_other _ _ _ db s Hs); auto.
    exact (found_row_not_selected _ _ db s Hs Hneq).
  - symmetry. exact (Forall2_length (Forall2_update_first _ _ db)).
  - rewrite (total_update_first_found _ _ _ s Hs). lia.
Qed.

(** Alice pays 4 coins to an unknown account whose name carol holds. *)
Lemma failed_receiver_creation_burns_coins_witness :
  snd (payCoinsByUserId (mkPay carol_discord alice_discord 4) [alice; carol])
  = DuplicateIdentity
  /\ total (fst (payCoinsByUserId (mkPay carol_discord alice_discord 4)
                  [alice; carol]))
     = total [alice; carol] - 4.
Proof.
  assert (Hpos : 0 < coins alice) by (cbn; lia).
  assert (Hle : 4 <= coins alice) by (cbn; lia).
  destruct (failed_receiver_creation_burns_coins
              (mkPay carol_discord alice_discord 4) [alice; carol] alice
              eq_refl Hpos Hle eq_refl eq_refl) as (Hout & _ & _ & _ & Htotal).
  exact (conj Hout Htotal).
Defined.

(** X6: a credit increments, it does not overwrite.  After a first credit
    of [a] that created the user, a second credit of [b] to the same
    identifier succeeds, adds no row and leaves the balance at [a + b]. *)
Theorem credit_twice_accumulates :
  forall (u : DiscordUser) (a b : Z) (db : DB),
    lookup (WhereDiscordId (du_id u)) db = None ->
    existsb (breaks_unique
               (discord_create_data u (setThumbnailUrl u) (Some a))) db
    = false ->
    let db1 := fst (sendCoinsByUserId (mkSendByUser u a) db) in
    let db2 := fst (sendCoinsByUserId (mkSendByUser u b) db1) in
    balance (WhereDiscordId (du_id u)) db1 = Some a
    /\ balance (WhereDiscordId (du_id u)) db2 = Some (a + b)
    /\ List.length db1 = S (List.length db)
    /\ List.length db2 = List.length db1.
Proof.
  intros u a b db Hnone Hfree db1 db2.
  set (row := row_of (fresh_id db)
                (discord_create_data u (setThumbnailUrl u) (Some a)) a).
  assert (H1 : sendCoinsByUserId (mkSendByUser u a) db
               = ((db ++ [row])%list,
                  Returns (mkEnvelope SUCCESS (data_user row)))).
  { rewrite sendCoinsByUserId_unfold. cbn [su_user su_coins].
    erewrite upsert_missing; [|reflexivity|exact Hnone].
    erewrite create_ok; [reflexivity|reflexivity|exact Hfree]. }
  assert (Hrow : lookup (WhereDiscordId (du_id u)) (db ++ [row])%list
                 = Some row).
  { unfold lookup. rewrite find_app_none by exact Hnone.
    cbn. now rewrite String.eqb_refl. }
  assert (H2 : sendCoinsByUserId (mkSendByUser u b) (db ++ [row])%list
               = (update_first (selects (WhereDiscordId (du_id u)))
                    (add_coins b) (db ++ [row])%list,
                  Returns (mkEnvelope SUCCESS (data_user (add_coins b row))))).
  { rewrite sendCoinsByUserId_unfold. cbn [su_user su_coins].
    erewrite upsert_found; [reflexivity|reflexivity|exact Hrow]. }
  subst db2 db1. rewrite H1. cbn [fst]. rewrite H2. cbn [fst].
  repeat split.
  - unfold balance. now rewrite Hrow.
  - unfold balance. now rewrite (lookup_after_update_same _ _ _ row Hrow).
  - rewrite length_app. cbn. lia.
  - symmetry. exact (Forall2_length (Forall2_update_first _ _ _)).
Qed.

(** Dave, unknown, is credited 3 and then 4 coins. *)
Lemma credit_twice_accumulates_witness :
  balance (WhereDiscordId "400")
    (fst (sendCoinsByUserId (mkSendByUser dave_discord 4)
            (fst (sendCoinsByUserId (mkSendByUser dave_discord 3)
                    [alice; bob]))))
  = Some (3 + 4).
Proof.
  exact (proj1 (proj2 (credit_twice_accumulates dave_discord 3 4 [alice; bob]
                         eq_refl eq_refl))).
Defined.

(** X7: no ledger operation removes a row or rewrites anything but a
    balance.  Whatever the operation and its outcome, the table it leaves is
    the table it found, row by row and in the same order, each row differing
    at most in its coins, followed by at most one new row. *)
Theorem ledger_only_touches_balances :
  forall (op : LedgerOp) (db : DB),
    grows 1 db (fst (run op db)).
Proof.
  intros op db. destruct op as [i|i|i]; cbn [run].
  - rewrite sendCoinsByUserId_unfold.
    pose proof (grows_upsert (WhereDiscordId (du_id (su_user i)))
                  (Some (su_coins i))
                  (discord_create_data (su_user i)
                     (setThumbnailUrl (su_user i)) (Some (su_coins i))) db) as H.
    now destruct (upsert _ _ _ db) as [db' [u|e]].
  - destruct (Js.integer_of (Js.parseInt (sg_coins i))) as [n|] eqn:Hn.
    + rewrite (sendCoinsByGithubId_unfold i db n Hn).
      pose proof (grows_upsert (WhereGithubId (gu_id (sg_user i))) (Some n)
                    (github_create_data (sg_user i) (Some n)) db) as H.
      now destruct (upsert _ _ _ db) as [db' [u|e]].
    + rewrite (sendCoinsByGithubId_nan i db Hn). apply grows_refl.
  - destruct (pay_cases i db) as [Hs Hu|Hs Hu|s Hs Hc|s res Hs Hpos Hle Hup];
      cbn [fst].
    + exists db, [row_of (fresh_id db) (sender_data i) 0]. repeat split.
      * apply Forall2_same_identity_refl.
      * cbn. lia.
    + apply grows_refl.
    + apply grows_refl.
    + apply (grows_trans 0 1 db
               (update_first (selects (WhereDiscordId (du_id (sender i))))
                  (add_coins (- pay_coins i)) db)).
      * apply grows_update_first.
      * destruct Hup; cbn [fst].
        -- apply (grows_weaken 0); [lia | apply grows_update_first].
        -- eexists _, [_]. repeat split.
           ++ apply Forall2_same_identity_refl.
           ++ cbn. lia.
        -- apply grows_refl.
Qed.



(** X9: the response of a successful transfer is the stored receiver: the
    row it echoes is the one [getByDiscordId] returns for the receiver's
    identifier afterwards. *)
Theorem transfer_echoes_stored_receiver :
  forall (input : PayCoinsByUserIdInput) (db : DB) (r : User),
    snd (payCoinsByUserId input db)
    = Returns (mkEnvelope SUCCESS (data_receiver r)) ->
    getByDiscordId (du_id (receiver input)) (fst (payCoinsByUserId input db))
    = Some r.
Proof.
  intros input db r.
  destruct (pay_cases input db) as [Hs Hu|Hs Hu|s Hs Hc|s res Hs Hpos Hle Hup];
    cbn [fst snd]; try discriminate.
  destruct Hup as [u Hfound|Hnone Hfree|Hnone Hbusy]; cbn [fst snd];
    try discriminate.
  - intros [= <-]. unfold getByDiscordId.
    now apply lookup_after_update_same.
  - intros [= <-]. unfold getByDiscordId, lookup.
    rewrite find_app_none by exact Hnone. cbn. now rewrite String.eqb_refl.
Qed.

(** Alice pays bob, who is echoed with 9 coins and found with 9 coins. *)
Lemma transfer_echoes_stored_receiver_witness :
  getByDiscordId "200"
    (fst (payCoinsByUserId (mkPay bob_discord alice_discord 4) [alice; bob]))
  = Some (add_coins 4 bob).
Proof.
  exact (transfer_echoes_stored_receiver (mkPay bob_discord alice_discord 4)
           [alice; bob] (add_coins 4 bob) eq_refl).
Defined.

(** X10: a sender is provisioned once.  After a transfer from an unknown
    sender has created that sender with no coins, the same transfer asked
    again ends with the insufficient-balance error and changes nothing. *)
Theorem second_attempt_changes_nothing :
  forall (input : PayCoinsByUserIdInput) (db : DB),
    lookup (WhereDiscordId (du_id (sender input))) db = None ->
    existsb (breaks_unique (sender_data input)) db = false ->
    payCoinsByUserId input (fst (payCoinsByUserId input db))
    = (fst (payCoinsByUserId input db), InsufficientBalance).
Proof.
  intros input db Hnone Hfree.
  rewrite (pay_unknown_sender input db Hnone Hfree). cbn [fst].
  apply (pay_refused input _ (row_of (fresh_id db) (sender_data input) 0)).
  - unfold lookup. rewrite find_app_none by exact Hnone.
    cbn. now rewrite String.eqb_refl.
  - left. cbn. lia.
Qed.

(** Dave, unknown, asks twice to pay bob. *)
Lemma second_attempt_changes_nothing_witness :
  payCoinsByUserId (mkPay bob_discord dave_discord 4)
    (fst (payCoinsByUserId (mkPay bob_discord dave_discord 4) [alice; bob]))
  = (fst (payCoinsByUserId (mkPay bob_discord dave_discord 4) [alice; bob]),
     InsufficientBalance).
Proof.
  exact (second_attempt_changes_nothing (mkPay bob_discord dave_discord 4)
           [alice; bob] eq_refl eq_refl).
Defined.

Lemma free_email_is_unknown d (db : DB) e :
  existsb (breaks_unique d) db = false ->
  c_email d = Some e ->
  lookup (WhereEmail e) db = None.
Proof.
  intros Hfree He. unfold lookup.
  induction db as [|v rest IH]; cbn in *; [reflexivity|].
  apply orb_false_iff in Hfree as [Hv Hrest].
  unfold breaks_unique in Hv. rewrite He in Hv.
  repeat (apply orb_false_iff in Hv as [Hv _]).
  replace (holds (email v) e) with false; [auto|].
  symmetry. destruct (email v) as [y|]; cbn in *; [|reflexivity].
  now rewrite String.eqb_sym.
Qed.

(** X20: a user created by a code-host credit can be found by e-mail.  When
    [sendCoinsByGithubId] succeeds for an identifier no user carried, the
    user of the response is the row [getByEmail] returns for the address of
    the input, and it carries the input's identifier, login and avatar. *)
Theorem github_created_user_is_found_by_email :
  forall (input : SendCoinsByGithubIdInput) (db : DB) (u : User),
    lookup (WhereGithubId (gu_id (sg_user input))) db = None ->
    snd (sendCoinsByGithubId input db)
    = Returns (mkEnvelope SUCCESS (data_user u)) ->
    getByEmail (gu_email (sg_user input)) (fst (sendCoinsByGithubId input db))
    = Some u
    /\ githubId u = Some (gu_id (sg_user input))
    /\ githubUserName u = Some (gu_login (sg_user input))
    /\ thumbnail u = gu_avatarUrl (sg_user input)
    /\ Js.parseInt (sg_coins input) = Js.Int (coins u).
Proof.
  intros input db u Hnone.
  destruct (Js.integer_of (Js.parseInt (sg_coins input))) as [n|] eqn:Hn.
  - rewrite (sendCoinsByGithubId_unfold input db n Hn).
    destruct (upsert_cases (WhereGithubId (gu_id (sg_user input))) n
                (github_create_data (sg_user input) (Some n)) n db eq_refl)
      as [x Hx|_ Hfree|_ Hbusy]; cbn [fst snd]; try discriminate.
    + congruence.
    + intros [= <-]. split; [|repeat split; now apply integer_of_some].
      unfold getByEmail, lookup.
      rewrite find_app_none
        by exact (free_email_is_unknown _ db _ Hfree eq_refl).
      cbn. now rewrite String.eqb_refl.
  - rewrite (sendCoinsByGithubId_nan input db Hn). discriminate.
Qed.

(** Erin, unknown, is credited 15 coins and then looked up by address. *)
Lemma github_created_user_is_found_by_email_witness :
  exists u : User,
    getByEmail "erin@example.org"
      (fst (sendCoinsByGithubId (mkSendByGithub erin_github "15")
              [alice; carol]))
    = Some u
    /\ coins u = 15.
Proof.
  eexists.
  destruct (github_created_user_is_found_by_email
              (mkSendByGithub erin_github "15") [alice; carol] _
              eq_refl eq_refl) as (Hfound & _).
  split; [exact Hfound | reflexivity].
Defined.

End LedgerExtras.


(** ** Properties of the give-coins command *)

Module BotExtras.
Import Store StoreFacts PrismaFacts Router RouterFacts Cases RouterCases.
Import Queries TableVocabulary TableFacts Fixtures.

Lemma find_update_first_cases (p q : User -> bool) (f : User -> User) db u :
  (forall x, q (f x) = q x) ->
  find q db = Some u ->
  find q (update_first p f db) = Some u
  \/ find q (update_first p f db) = Some (f u).
Proof.
  intros Hq. induction db as [|v rest IH]; cbn; [discriminate|].
  destruct (p v) eqn:P; cbn.
  - rewrite Hq. destruct (q v); [|now left].
    intros [= ->]. now right.
  - destruct (q v); [now left|]. exact IH.
Qed.

(** What the command can do to the table. *)
Lemma execute_state it db :
  fst (Bot.execute it db) = db
  \/ exists n : Z,
       1 <= n
       /\ Js.parseInt (Bot.option_coins it) = Js.Int n
       /\ fst (Bot.execute it db)
          = fst (sendCoinsByUserId (mkSendByUser (Bot.option_user it) n) db).
Proof.
  unfold Bot.execute.
  destruct (Bot.hasAdminRole it); cbn [negb]; [|now left].
  destruct (Js.parseInt (Bot.option_coins it)) as [|[]|n] eqn:Hn;
    cbn [Js.lt Js.integer_of]; try now left.
  destruct (n <? 1) eqn:E; [now left|]. right. exists n.
  apply Z.ltb_ge in E. repeat split; auto.
  unfold Bot.api_sendCoinsByUserId.
  now destruct (sendCoinsByUserId _ db) as [db' [e|e|]].
Qed.

(** X11: the command only ever gives.  Whatever the interaction, a balance
    found under some key before the command is found under that key
    afterwards and is not smaller, and the sum of all balances has not
    decreased. *)
Theorem command_never_takes_coins :
  forall (it : Bot.Interaction) (db : DB),
    (forall (w : UserWhereUniqueInput) (c : Z),
        balance w db = Some c ->
        exists c' : Z,
          balance w (fst (Bot.execute it db)) = Some c' /\ c <= c')
    /\ total db <= total (fst (Bot.execute it db)).
Proof.
  intros it db.
  destruct (execute_state it db) as [-> | (n & Hn & _ & ->)].
  - split; [|lia]. intros w c Hc. exists c. split; [exact Hc | lia].
  - rewrite sendCoinsByUserId_unfold. cbn [su_user su_coins].
    destruct (upsert_cases (WhereDiscordId (du_id (Bot.option_user it))) n
                (discord_create_data (Bot.option_user it)
                   (setThumbnailUrl (Bot.option_user it)) (Some n)) n db
                eq_refl) as [u Hu|Hnone Hfree|Hnone Hbusy]; cbn [fst].
    + split.
      * intros w c Hc. unfold balance in *.
        destruct (lookup w db) as [x|] eqn:Hx; [|discriminate].
        cbn in Hc. injection Hc as <-.
        destruct (find_update_first_cases
                    (selects (WhereDiscordId (du_id (Bot.option_user it))))
                    (selects w) (add_coins n) db x
                    (fun y => selects_add_coins w n y) Hx) as [H|H];
          unfold lookup; rewrite H; cbn.
        -- exists (coins x). split; [reflexivity | lia].
        -- exists (coins x + n). split; [reflexivity | lia].
      * rewrite (total_update_first_found _ _ _ u Hu). lia.
    + split.
      * intros w c Hc. unfold balance in *.
        destruct (lookup w db) as [x|] eqn:Hx; [|discriminate].
        cbn in Hc. injection Hc as <-.
        unfold lookup. rewrite (find_app_some _ _ _ x Hx). cbn.
        exists (coins x). split; [reflexivity | lia].
      * rewrite total_app. cbn. lia.
    + split; [|lia]. intros w c Hc. exists c. split; [exact Hc | lia].
Qed.

(** Bob's 5 coins after a gift of 7 to alice. *)
Lemma command_never_takes_coins_witness :
  exists c' : Z,
    balance (WhereDiscordId "200")
      (fst (Bot.execute (Bot.mkInteraction true alice_discord "7" "200")
              [alice; bob]))
    = Some c'
    /\ 5 <= c'.
Proof.
  exact (proj1 (command_never_takes_coins
                  (Bot.mkInteraction true alice_discord "7" "200")
                  [alice; bob])
           (WhereDiscordId "200") 5 eq_refl).
Defined.

(** X12: a member with the role who gives [n >= 1] coins to a user the
    table knows adds exactly [n] to that user's balance and is answered
    with the success message naming the member, the coins as typed and the
    receiver. *)
Theorem command_gives_to_known_user :
  forall (it : Bot.Interaction) (db : DB) (n : Z) (row : User),
    Bot.hasAdminRole it = true ->
    Js.parseInt (Bot.option_coins it) = Js.Int n ->
    1 <= n ->
    lookup (WhereDiscordId (du_id (Bot.option_user it))) db = Some row ->
    snd (Bot.execute it db)
    = Bot.GiveSuccess (Bot.member_id it) (Bot.option_coins it)
        (du_id (Bot.option_user it))
    /\ balance (WhereDiscordId (du_id (Bot.option_user it)))
         (fst (Bot.execute it db))
       = Some (coins row + n)
    /\ List.length (fst (Bot.execute it db)) = List.length db.
Proof.
  intros it db n row Hadmin Hn Hge Hrow.
  unfold Bot.execute. rewrite Hadmin, Hn. cbn [negb Js.lt Js.integer_of].
  replace (n <? 1) with false by (symmetry; apply Z.ltb_ge; lia).
  unfold Bot.api_sendCoinsByUserId. rewrite sendCoinsByUserId_unfold.
  cbn [su_user su_coins].
  erewrite upsert_found; [|reflexivity|exact Hrow]. cbn [fst snd].
  repeat split.
  - unfold balance. now rewrite (lookup_after_update_same _ _ db row Hrow).
  - symmetry. exact (Forall2_length (Forall2_update_first _ _ db)).
Qed.

(** A moderator gives 7 coins to bob. *)
Lemma command_gives_to_known_user_witness :
  balance (WhereDiscordId "200")
    (fst (Bot.execute (Bot.mkInteraction true bob_discord "7" "100")
            [alice; bob]))
  = Some (coins bob + 7).
Proof.
  assert (Hge : 1 <= 7) by lia.
  exact (proj1 (proj2 (command_gives_to_known_user
                         (Bot.mkInteraction true bob_discord "7" "100")
                         [alice; bob] 7 bob eq_refl eq_refl Hge eq_refl))).
Defined.



End BotExtras.


(** ** The default avatar of a numeric discriminator *)

Module ThumbnailExtras.
Import Auth TableVocabulary.

Lemma digit_value_of_digit c :
  is_digit c = true ->
  exists d : Z, Js.digit_value c = Some d /\ 0 <= d < 10.
Proof.
  destruct c as [[] [] [] [] [] [] [] []]; intros H; try discriminate H;
    eexists; (split; [vm_compute; reflexivity | lia]).
Qed.

Lemma digits_prefix_bounds s :
  forall a : Z,
    all_digits s = true ->
    0 <= a ->
    exists n : Z,
      Js.digits_prefix 10 s (Some a) = Some n
      /\ a * 10 ^ Z.of_nat (String.length s) <= n
         < (a + 1) * 10 ^ Z.of_nat (String.length s).
Proof.
  induction s as [|c rest IH]; intros a Hall Ha.
  - exists a. cbn. split; [reflexivity | lia].
  - cbn [all_digits] in Hall. apply andb_true_iff in Hall as [Hc Hrest].
    destruct (digit_value_of_digit c Hc) as (d & Hd & Hrange).
    destruct (IH (10 * a + d) Hrest ltac:(lia)) as (n & Hn & Hlo & Hhi).
    exists n. split.
    + cbn [Js.digits_prefix]. rewrite Hd.
      replace (d <? 10) with true by (symmetry; apply Z.ltb_lt; lia).
      exact Hn.
    + cbn [String.length]. rewrite Nat2Z.inj_succ, Z.pow_succ_r by lia.
      assert (0 < 10 ^ Z.of_nat (String.length rest))
        by (apply Z.pow_pos_nonneg; lia).
      nia.
Qed.

Lemma trim_start_digit c rest :
  is_digit c = true -> Js.trim_start (String c rest) = String c rest.
Proof.
  intros Hc.
  destruct c as [[] [] [] [] [] [] [] []]; try discriminate Hc;
    destruct rest as [|c2 [|c3 r3]]; reflexivity.
Qed.

Lemma parseInt_digit_start c rest :
  is_digit c = true ->
  all_digits rest = true ->
  Js.parseInt (String c rest)
  = match Js.digits_prefix 10 (String c rest) None with
    | Some m => Js.round_to_double (1 * m)
    | None => Js.NaN
    end.
Proof.
  intros Hc Hrest. unfold Js.parseInt. rewrite (trim_start_digit c rest Hc).
  destruct c as [[] [] [] [] [] [] [] []]; try discriminate Hc;
    try reflexivity.
  destruct rest as [|c' r']; [reflexivity|].
  cbn [all_digits] in Hrest. apply andb_true_iff in Hrest as [Hc' _].
  destruct c' as [[] [] [] [] [] [] [] []]; try discriminate Hc';
    reflexivity.
Qed.

Lemma round_to_double_small n :
  0 <= n < 2 ^ 53 -> Js.round_to_double n = Js.Int n.
Proof.
  intros Hn. unfold Js.round_to_double.
  rewrite Z.abs_eq by lia.
  now replace (n <? 2 ^ 53) with true by (symmetry; apply Z.ltb_lt; lia).
Qed.

(** A discriminator of up to fifteen decimal digits is read as a
    non-negative integer, below 10^15. *)
Lemma parseInt_decimal s :
  is_decimal s = true ->
  (String.length s <= 15)%nat ->
  exists n : Z, Js.parseInt s = Js.Int n /\ 0 <= n < 10 ^ 15.
Proof.
  destruct s as [|c rest]; [discriminate|]. cbn [is_decimal all_digits].
  intros H Hlen. apply andb_true_iff in H as [Hc Hrest].
  rewrite (parseInt_digit_start c rest Hc Hrest).
  destruct (digit_value_of_digit c Hc) as (d & Hd & Hrange).
  destruct (digits_prefix_bounds rest d Hrest ltac:(lia))
    as (n & Hn & Hlo & Hhi).
  assert (Hstart : Js.digits_prefix 10 (String c rest) None = Some n).
  { cbn [Js.digits_prefix]. rewrite Hd.
    replace (d <? 10) with true by (symmetry; apply Z.ltb_lt; lia).
    exact Hn. }
  rewrite Hstart.
  cbn [String.length] in Hlen.
  assert (Hpow : 10 ^ Z.of_nat (String.length rest) <= 10 ^ 14)
    by (apply Z.pow_le_mono_r; lia).
  assert (0 < 10 ^ Z.of_nat (String.length rest))
    by (apply Z.pow_pos_nonneg; lia).
  assert (Hn15 : 0 <= n < 10 ^ 15).
  { change (10 ^ 15) with (10 * 10 ^ 14). nia. }
  exists n. split; [|exact Hn15].
  replace (1 * n) with n by lia. apply round_to_double_small.
  assert (10 ^ 15 < 2 ^ 53) by reflexivity. lia.
Qed.

(** X14: for every discriminator that is a non-empty string of at most
    fifteen decimal digits (the chat platform issues four), a profile
    without avatar hash resolves to one of the five default avatars: the
    index is a number from 0 to 4 and the URL is one of the five
    [embed/avatars/k.png]. *)
Theorem default_avatar_is_one_of_five :
  forall i d : string,
    is_decimal d = true ->
    (String.length d <= 15)%nat ->
    (exists k : Z,
        0 <= k < 5
        /\ Js.rem (Js.parseInt d) 5 = Js.Int k
        /\ resolve_image_url None i d
           = "https://cdn.discordapp.com/embed/avatars/"
               ++ Js.number_to_string (Js.Int k) ++ ".png")
    /\ In (resolve_image_url None i d)
         ["https://cdn.discordapp.com/embed/avatars/0.png";
          "https://cdn.discordapp.com/embed/avatars/1.png";
          "https://cdn.discordapp.com/embed/avatars/2.png";
          "https://cdn.discordapp.com/embed/avatars/3.png";
          "https://cdn.discordapp.com/embed/avatars/4.png"].
Proof.
  intros i d Hd Hlen.
  destruct (parseInt_decimal d Hd Hlen) as (n & Hn & Hpos & _).
  assert (Hrem : Js.rem (Js.parseInt d) 5 = Js.Int (n mod 5)).
  { rewrite Hn. cbn [Js.rem Z.eqb]. now rewrite Z.rem_mod_nonneg by lia. }
  assert (Hk : 0 <= n mod 5 < 5) by (apply Z.mod_pos_bound; lia).
  split.
  - exists (n mod 5). repeat split; try lia; auto.
    unfold resolve_image_url. now rewrite Hrem.
  - unfold resolve_image_url. rewrite Hrem.
    assert (Hcases : n mod 5 = 0 \/ n mod 5 = 1 \/ n mod 5 = 2
                     \/ n mod 5 = 3 \/ n mod 5 = 4) by lia.
    destruct Hcases as [E|[E|[E|[E|E]]]]; rewrite E; cbn; auto 6.
Qed.

(** The discriminator ["0042"]. *)
Lemma default_avatar_is_one_of_five_witness :
  In (resolve_image_url None "1" "0042")
    ["https://cdn.discordapp.com/embed/avatars/0.png";
     "https://cdn.discordapp.com/embed/avatars/1.png";
     "https://cdn.discordapp.com/embed/avatars/2.png";
     "https://cdn.discordapp.com/embed/avatars/3.png";
     "https://cdn.discordapp.com/embed/avatars/4.png"].
Proof.
  assert (Hlen : (String.length "0042" <= 15)%nat) by (cbn; lia).
  exact (proj2 (default_avatar_is_one_of_five "1" "0042" eq_refl Hlen)).
Defined.

End ThumbnailExtras.


(** ** Properties of the sign-in callback *)

Module SignInExtras.
Import Store StoreFacts SignIn Scenarios Fixtures.

Lemma map_update_first {B} (g : User -> B) p f (db : DB) :
  (forall x, g (f x) = g x) ->
  map g (update_first p f db) = map g db.
Proof.
  intros Hg. induction db as [|v rest IH]; cbn; [reflexivity|].
  destruct (p v); cbn; [now rewrite Hg | now rewrite IH].
Qed.

Lemma named_found k (db : DB) u :
  find (named k) db = Some u -> discordUserName u = Some k.
Proof.
  intros H. apply find_some in H as [_ H]. now apply holds_true.
Qed.

Lemma find_snoc_none {A} (q : A -> bool) (l : list A) (a : A) :
  find q l = None -> q a = true -> find q (l ++ [a])%list = Some a.
Proof.
  induction l as [|v rest IH]; cbn; intros H Ha.
  - now rewrite Ha.
  - destruct (q v); [discriminate | auto].
Qed.

Lemma lookup_linked k uid mail (db : DB) u :
  find (named k) db = Some u ->
  existsb (link_breaks_unique uid mail) (others (named k) db) = false ->
  lookup (WhereDiscordId uid) (update_first (named k) (set_link uid mail) db)
  = Some (set_link uid mail u).
Proof.
  unfold lookup. induction db as [|v rest IH]; cbn; [discriminate|].
  destruct (named k v) eqn:N.
  - intros [= ->] _. cbn. now rewrite String.eqb_refl.
  - intros Hu Hfree. cbn in Hfree.
    apply orb_false_iff in Hfree as [Hv Hrest].
    unfold link_breaks_unique in Hv. apply orb_false_iff in Hv as [Hv _].
    cbn. replace (holds (discordId v) uid) with false; [auto|].
    symmetry. destruct (discordId v) as [y|]; cbn in *; [|reflexivity].
    now rewrite String.eqb_sym.
Qed.

(** The four ways a sign-in can go. *)
Lemma signIn_cases account user t :
  signIn account user t = (t, Ok true)
  \/ (exists u : User,
        find (account_key "discord" (arg_providerAccountId account))
          (accounts t) = None
        /\ find (named (arg_name user)) (users t) = Some u
        /\ existsb (link_breaks_unique (arg_id user) (arg_email user))
             (others (named (arg_name user)) (users t)) = false
        /\ ((existsb (account_key (arg_provider account)
                        (arg_providerAccountId account)) (accounts t) = false
             /\ signIn account user t
                = (mkTables
                     (update_first (named (arg_name user))
                        (set_link (arg_id user) (arg_email user)) (users t))
                     (accounts t
                        ++ [mkAccount (id u) (arg_type account)
                              (arg_provider account)
                              (arg_providerAccountId account)])%list,
                   Ok true))
            \/ signIn account user t
               = (mkTables
                    (update_first (named (arg_name user))
                       (set_link (arg_id user) (arg_email user)) (users t))
                    (accounts t),
                  Thrown (PrismaClientKnownRequestError
                            UniqueConstraintViolation))))
  \/ signIn account user t
     = (t, Thrown (PrismaClientKnownRequestError UniqueConstraintViolation)).
Proof.
  unfold signIn, bindT, account_findUnique, user_findUnique_discordUserName.
  destruct (find (account_key "discord" (arg_providerAccountId account))
              (accounts t)) as [a|] eqn:Ha; [now left|].
  destruct (find (named (arg_name user)) (users t)) as [u|] eqn:Hu;
    [|now left].
  rewrite (named_found _ _ _ Hu). unfold user_update_link. rewrite Hu.
  destruct (existsb (link_breaks_unique (arg_id user) (arg_email user))
              (others (named (arg_name user)) (users t))) eqn:Hfree;
    [now right; right|].
  right. left. exists u. repeat split; auto.
  unfold account_create. cbn [accounts users provider providerAccountId].
  destruct (existsb (account_key (arg_provider account)
                       (arg_providerAccountId account)) (accounts t)) eqn:Hacc.
  - now right.
  - left. split; reflexivity.
Qed.

(** X15: a sign-in never denies and never changes what a user owns.  It
    returns [true] or raises the unique-constraint error, never [false];
    and whatever it does, the users of the table are the same rows in the
    same order with, at most, another [discordId] and [email]: no balance,
    name or code-host identity is changed, no user is added or removed. *)
Theorem sign_in_keeps_users_and_balances :
  forall (account : AccountArg) (user : UserArg) (t : Tables),
    (snd (signIn account user t) = Ok true
     \/ snd (signIn account user t)
        = Thrown (PrismaClientKnownRequestError UniqueConstraintViolation))
    /\ map besides_link (users (fst (signIn account user t)))
       = map besides_link (users t).
Proof.
  intros account user t.
  destruct (signIn_cases account user t)
    as [-> | [(u & _ & _ & _ & [[_ ->] | ->]) | ->]]; cbn [fst snd users];
    (split; [auto|]); try reflexivity;
    now apply map_update_first.
Qed.

(** X16: the first sign-in of a user provisioned under a chat-platform name
    links the account to that user.  When no account is recorded for the
    provider account, a user carries the name, no other user holds the new
    identifier or address and the account pair is free, the call returns
    [true], records one account for that user's id, and the user, with the
    balance it had, is from then on the row the ledger finds under the new
    [discordId]. *)
Theorem sign_in_links_provisioned_user :
  forall (account : AccountArg) (user : UserArg) (t : Tables) (u : User),
    find (account_key "discord" (arg_providerAccountId account)) (accounts t)
    = None ->
    find (named (arg_name user)) (users t) = Some u ->
    existsb (link_breaks_unique (arg_id user) (arg_email user))
      (others (named (arg_name user)) (users t)) = false ->
    existsb (account_key (arg_provider account)
               (arg_providerAccountId account)) (accounts t) = false ->
    snd (signIn account user t) = Ok true
    /\ accounts (fst (signIn account user t))
       = (accounts t
            ++ [mkAccount (id u) (arg_type account) (arg_provider account)
                  (arg_providerAccountId account)])%list
    /\ (exists row : User,
           Queries.getByDiscordId (arg_id user)
             (users (fst (signIn account user t))) = Some row
           /\ id row = id u /\ coins row = coins u
           /\ discordUserName row = Some (arg_name user)).
Proof.
  intros account user t u Ha Hu Hfree Hacc.
  assert (Hrun : signIn account user t
                 = (mkTables
                      (update_first (named (arg_name user))
                         (set_link (arg_id user) (arg_email user)) (users t))
                      (accounts t
                         ++ [mkAccount (id u) (arg_type account)
                               (arg_provider account)
                               (arg_providerAccountId account)])%list,
                    Ok true)).
  { unfold signIn, bindT, account_findUnique, user_findUnique_discordUserName.
    rewrite Ha, Hu, (named_found _ _ _ Hu).
    unfold user_update_link. rewrite Hu, Hfree.
    unfold account_create. cbn [accounts users provider providerAccountId].
    now rewrite Hacc. }
  rewrite Hrun. cbn [fst snd accounts users].
  split; [reflexivity|]. split; [reflexivity|].
  exists (set_link (arg_id user) (arg_email user) u).
  split; [now apply lookup_linked|].
  repeat split. cbn. now apply named_found with (db := users t).
Qed.

(** Carol, provisioned by name with no coins taken from her, signs in. *)
Lemma sign_in_links_provisioned_user_witness :
  snd (signIn carol_account carol_user before_sign_in) = Ok true
  /\ accounts (fst (signIn carol_account carol_user before_sign_in))
     = [mkAccount 3 "oauth" "discord" "300"].
Proof.
  destruct (sign_in_links_provisioned_user carol_account carol_user
              before_sign_in carol eq_refl eq_refl eq_refl eq_refl)
    as (Hout & Hacc & _).
  exact (conj Hout Hacc).
Defined.

(** X17: signing in again changes nothing.  For the provider ["discord"],
    once a sign-in has returned, the same sign-in on the tables it left
    returns [true] and leaves them as they are. *)
Theorem sign_in_again_changes_nothing :
  forall (account : AccountArg) (user : UserArg) (t : Tables) (b : bool),
    arg_provider account = "discord" ->
    snd (signIn account user t) = Ok b ->
    signIn account user (fst (signIn account user t))
    = (fst (signIn account user t), Ok true).
Proof.
  intros account user t b Hprov.
  destruct (signIn_cases account user t)
    as [H | [(u & Ha & Hu & Hfree & [[Hacc H] | H]) | H]]; rewrite H;
    cbn [fst snd]; try discriminate; intros _.
  - exact H.
  - unfold signIn, bindT, account_findUnique. cbn [accounts].
    rewrite (find_snoc_none _ _ _ Ha); [reflexivity|].
    unfold account_key. cbn [provider providerAccountId].
    now rewrite Hprov, !String.eqb_refl.
Qed.

(** Carol signs in a second time. *)
Lemma sign_in_again_changes_nothing_witness :
  signIn carol_account carol_user
    (fst (signIn carol_account carol_user before_sign_in))
  = (fst (signIn carol_account carol_user before_sign_in), Ok true).
Proof.
  exact (sign_in_again_changes_nothing carol_account carol_user
           before_sign_in true eq_refl eq_refl).
Defined.

End SignInExtras.


(** ** Properties of the slash-command loader *)

Module LoaderExtras.
Import Loader.

Section Loaded.

Variable SlashCommand : Type.
Variable name_of : SlashCommand -> string.
Variable require : string -> SlashCommand.
Variable dir : string.


Lemma collection_get_set k k' v (c : Collection SlashCommand) :
  collection_get SlashCommand k (collection_set SlashCommand k' v c)
  = if String.eqb k' k then Some v else collection_get SlashCommand k c.
Proof.
  induction c as [|[k2 v2] rest IH]; cbn; [reflexivity|].
  destruct (String.eqb k2 k') eqn:E2; cbn.
  - apply String.eqb_eq in E2. subst k2.
    now destruct (String.eqb k' k).
  - rewrite IH. destruct (String.eqb k2 k) eqn:E; [|reflexivity].
    destruct (String.eqb k' k) eqn:E'; [|reflexivity].
    apply String.eqb_eq in E, E'. subst. now rewrite String.eqb_refl in E2.
Qed.

Lemma find_append (p : SlashCommand -> bool) (l1 l2 : list SlashCommand) :
  find p (l1 ++ l2)%list
  = match find p l1 with
    | Some c => Some c
    | None => find p l2
    end.
Proof.
  induction l1 as [|c l1 IH]; cbn; [reflexivity|]. now destruct (p c).
Qed.

Lemma load_from acc files :
  fst (fold_left (load_file SlashCommand name_of require dir) files acc)
  = (fst acc ++ map (module_of SlashCommand require dir) (filter is_ts files))%list
  /\ forall k : string,
       collection_get SlashCommand k
         (snd (fold_left (load_file SlashCommand name_of require dir) files acc))
       = match find (carries SlashCommand name_of k) (rev (map (module_of SlashCommand require dir) (filter is_ts files))) with
         | Some c => Some c
         | None => collection_get SlashCommand k (snd acc)
         end.
Proof.
  revert acc. induction files as [|file rest IH]; intros acc.
  - cbn. now rewrite app_nil_r.
  - cbn [fold_left filter]. unfold load_file at 2 4. fold (is_ts file).
    destruct (is_ts file) eqn:E; cbn [negb].
    + destruct (IH ((fst acc ++ [module_of SlashCommand require dir file])%list,
                    collection_set SlashCommand (name_of (module_of SlashCommand require dir file))
                      (module_of SlashCommand require dir file) (snd acc))) as [IH1 IH2].
      fold (module_of SlashCommand require dir file). split.
      * rewrite IH1. cbn [fst map]. now rewrite <- app_assoc.
      * intros k. rewrite IH2. cbn [snd map rev].
        rewrite find_append.
        destruct (find (carries SlashCommand name_of k) (rev (map (module_of SlashCommand require dir) (filter is_ts rest))));
          [reflexivity|].
        rewrite collection_get_set. cbn [find]. unfold carries at 1.
        now destruct (String.eqb (name_of (module_of SlashCommand require dir file)) k).
    + apply IH.
Qed.

(** X18: the loader sends one entry per [.ts] file.  The array handed to
    the REST API holds, in the order of the directory listing, the command
    of each file whose name ends in [.ts] and nothing for any other file;
    a listing without such a file registers no command at all. *)
Theorem loader_sends_one_entry_per_ts_file :
  forall (files : list string) (c0 : Collection SlashCommand),
    fst (load SlashCommand name_of require dir files c0)
    = map (module_of SlashCommand require dir) (filter is_ts files)
    /\ List.length (fst (load SlashCommand name_of require dir files c0))
       = List.length (filter is_ts files)
    /\ (forallb (fun f => negb (is_ts f)) files = true ->
        load SlashCommand name_of require dir files c0 = ([], c0)).
Proof.
  intros files c0. unfold load.
  destruct (load_from ([], c0) files) as [H1 _]. cbn [fst app] in H1.
  split; [exact H1|]. split; [now rewrite H1, length_map|].
  intros Hnone. clear H1.
  induction files as [|f rest IH]; [reflexivity|].
  cbn [forallb] in Hnone. apply andb_true_iff in Hnone as [Hf Hrest].
  cbn [fold_left]. unfold load_file at 2. fold (is_ts f). rewrite Hf.
  now apply IH.
Qed.

(** X19: in the collection of the client the last file wins.  After the
    loader has run, looking a name up yields the command of the last [.ts]
    file of the listing whose command carries that name and, when no loaded
    command carries it, what the collection held before. *)
Theorem loader_last_file_wins :
  forall (files : list string) (c0 : Collection SlashCommand) (k : string),
    collection_get SlashCommand k
      (snd (load SlashCommand name_of require dir files c0))
    = match find (carries SlashCommand name_of k) (rev (map (module_of SlashCommand require dir) (filter is_ts files))) with
      | Some c => Some c
      | None => collection_get SlashCommand k c0
      end.
Proof.
  intros files c0 k. unfold load.
  destruct (load_from ([], c0) files) as [_ H2]. exact (H2 k).
Qed.

End Loaded.

(** Two of the three loaded files export [give-coins]: three entries are
    sent, and the name resolves to the later file. *)
Example loader_on_a_listing :
  map Scenarios.cmd_file
    (fst (load Scenarios.Cmd Scenarios.cmd_name Scenarios.require_cmd
            "commands" Scenarios.listing []))
  = ["commands/giveCoins.ts"; "commands/ping.ts"; "commands/giveCoinsV2.ts"]
  /\ option_map Scenarios.cmd_file
       (collection_get Scenarios.Cmd "give-coins"
          (snd (load Scenarios.Cmd Scenarios.cmd_name Scenarios.require_cmd
                  "commands" Scenarios.listing [])))
     = Some "commands/giveCoinsV2.ts".
Proof. split; reflexivity. Qed.

(** A listing of compiled files only. *)
Lemma loader_sends_one_entry_per_ts_file_witness :
  load Scenarios.Cmd Scenarios.cmd_name Scenarios.require_cmd "commands"
    ["giveCoins.js"; "ping.js"] []
  = ([], []).
Proof.
  exact (proj2 (proj2 (loader_sends_one_entry_per_ts_file Scenarios.Cmd
                         Scenarios.cmd_name Scenarios.require_cmd "commands"
                         ["giveCoins.js"; "ping.js"] [])) eq_refl).
Defined.

End LoaderExtras.


(** ** The procedures under faults: case lemmas *)

Module RuntimeFacts.
Import Store StoreFacts PrismaFacts Router RouterFacts Cases RouterCases.
Import Runtime.

Lemma call_spec {A} (m : M A) w :
  undisturbed w ->
  call m w
  = match next_fault w with
    | Some f => (mkWorld (table w) (tl (events w)), Thrown (exn_of_fault f))
    | None =>
        (mkWorld (fst (m (table w))) (tl (events w)), snd (m (table w)))
    end.
Proof.
  unfold undisturbed, call, next_fault.
  destruct (events w) as [|[|f|g] rest]; cbn; try reflexivity.
  discriminate.
Qed.

Lemma undisturbed_tl t evs :
  undisturbed (mkWorld t evs) -> forall t', undisturbed (mkWorld t' (tl evs)).
Proof.
  unfold undisturbed. cbn. destruct evs as [|e rest]; cbn; auto.
  intros H t'. now apply orb_false_iff in H.
Qed.

Lemma undisturbed_after {A} (m : M A) w :
  undisturbed w -> undisturbed (fst (call m w)).
Proof.
  intros H. rewrite (call_spec m w H).
  destruct w as [t evs]. destruct (next_fault _); cbn [fst];
    now apply (undisturbed_tl t evs).
Qed.

Lemma answered_no_fault w : answered w -> next_fault w = None.
Proof.
  unfold answered, next_fault. destruct (events w) as [|[|f|g] rest]; cbn;
    auto. discriminate.
Qed.

Lemma answered_tl t evs :
  answered (mkWorld t evs) -> forall t', answered (mkWorld t' (tl evs)).
Proof.
  unfold answered. cbn. destruct evs as [|e rest]; cbn; auto.
  intros H t'. now apply orb_false_iff in H.
Qed.

(** What a fault becomes in the catch block. *)
Lemma catch_fault f :
  catch_block (exn_of_fault f) = DuplicateIdentity
  \/ catch_block (exn_of_fault f) = ReturnsUndefined.
Proof. destruct f as [[| |text]|]; cbn; auto. Qed.

(** A property of tables kept by a store call is kept by the awaited
    call. *)
Lemma call_keeps {A} (P : DB -> Prop) (m : M A) w :
  undisturbed w ->
  P (table w) -> P (fst (m (table w))) -> P (table (fst (call m w))).
Proof.
  intros H Hw Hm. rewrite (call_spec m w H).
  now destruct (next_fault w).
Qed.

(** A credit is one awaited upsert. *)
Lemma sendCoinsByUserId_in_unfold input w :
  sendCoinsByUserId_in input w
  = match call (upsert (WhereDiscordId (du_id (su_user input)))
                  (Some (su_coins input))
                  (discord_create_data (su_user input)
                     (setThumbnailUrl (su_user input))
                     (Some (su_coins input)))) w
    with
    | (w', Ok user) => (w', Returns (mkEnvelope SUCCESS (data_user user)))
    | (w', Thrown e) => (w', catch_block e)
    end.
Proof.
  unfold sendCoinsByUserId_in, try_catch_in, bindW.
  now destruct (call _ w) as [w' [u|e]].
Qed.

Lemma sendCoinsByGithubId_in_unfold input w :
  sendCoinsByGithubId_in input w
  = match call (upsert (WhereGithubId (gu_id (sg_user input)))
                  (Js.integer_of (Js.parseInt (sg_coins input)))
                  (github_create_data (sg_user input)
                     (Js.integer_of (Js.parseInt (sg_coins input))))) w
    with
    | (w', Ok user) => (w', Returns (mkEnvelope SUCCESS (data_user user)))
    | (w', Thrown e) => (w', catch_block e)
    end.
Proof.
  unfold sendCoinsByGithubId_in, try_catch_in, bindW.
  now destruct (call _ w) as [w' [u|e]].
Qed.

(** With nothing awaiting the calls, the procedures are those of the
    router run on the table. *)
Lemma run_in_calm op db :
  run_in op (calm db) = (calm (fst (run op db)), snd (run op db)).
Proof.
  destruct op as [i|i|i]; cbn [run_in run].
  - rewrite sendCoinsByUserId_in_unfold, sendCoinsByUserId_unfold.
    unfold call, calm. cbn [events table].
    now destruct (upsert _ _ _ db) as [db' [u|e]].
  - rewrite sendCoinsByGithubId_in_unfold.
    unfold sendCoinsByGithubId, try_catch, sendCoinsByGithubId_body, bind.
    unfold call, calm. cbn [events table].
    now destruct (upsert _ _ _ db) as [db' [u|e]].
  - unfold payCoinsByUserId_in, try_catch_in, bindW, pay_check_in, bindW.
    unfold payCoinsByUserId, try_catch, payCoinsByUserId_body, bind,
      pay_check, bind.
    unfold call at 1, calm, findUnique. cbn [events table fst snd].
    destruct (lookup (WhereDiscordId (du_id (sender i))) db) as [s|].
    + destruct ((coins s <=? 0) || (coins s <? pay_coins i));
        cbn [retW throwW ret throw]; [reflexivity|].
      unfold pay_commit_in, pay_commit, bindW, bind, call.
      cbn [events table].
      destruct (update_coins (WhereDiscordId (du_id (sender i)))
                  (Some (- pay_coins i)) db) as [db1 [u|e]];
        cbn [fst snd events table retW ret]; [|reflexivity].
      now destruct (upsert (WhereDiscordId (du_id (receiver i)))
                      (Some (pay_coins i))
                      (discord_create_data (receiver i)
                         (setThumbnailUrl (receiver i)) (Some (pay_coins i)))
                      db1) as [db2 [r|e]].
    + unfold call. cbn [events table].
      now destruct (create (discord_create_data (sender i)
                              (setThumbnailUrl (sender i)) (Some 0)) db)
        as [db1 [u|e]].
Qed.

Lemma next_fault_in t evs f :
  next_fault (mkWorld t evs) = Some f -> In (Fails f) evs.
Proof.
  unfold next_fault. cbn. destruct evs as [|[|f'|g] rest]; try discriminate.
  intros [= ->]. now left.
Qed.

Lemma in_tl {A} (x : A) (l : list A) : In x (tl l) -> In x l.
Proof. destruct l; cbn; auto. Qed.

Lemma answered_not_in w f : answered w -> ~ In (Fails f) (events w).
Proof.
  unfold answered. intros H Hin.
  assert (existsb is_fault (events w) = true)
    by (apply existsb_exists; exists (Fails f); auto).
  congruence.
Qed.

Lemma pay_in_cases input w :
  undisturbed w ->
  RuntimeCases.pay_in_case input (table w) (events w)
    (table (fst (payCoinsByUserId_in input w)))
    (snd (payCoinsByUserId_in input w)).
Proof.
  intros H. destruct w as [db evs].
  unfold payCoinsByUserId_in, try_catch_in, bindW, pay_check_in, bindW.
  rewrite (call_spec _ _ H). cbn [table events].
  destruct (next_fault (mkWorld db evs)) as [f|] eqn:F0;
    [constructor; now apply (next_fault_in db)|].
  cbn [findUnique fst snd].
  pose proof (undisturbed_tl db evs H db) as H1.
  destruct (lookup (WhereDiscordId (du_id (sender input))) db) as [s|] eqn:Hs.
  - destruct (Z_le_gt_dec (coins s) 0) as [Hle|Hgt];
      [|destruct (Z_lt_le_dec (coins s) (pay_coins input)) as [Hlt|Hge]].
    + replace ((coins s <=? 0) || (coins s <? pay_coins input)) with true
        by (symmetry; apply orb_true_iff; left; apply Z.leb_le; lia).
      cbn [throwW fst snd table].
      pose proof (pay_refused input db s Hs (or_introl Hle)) as E.
      replace db with (fst (payCoinsByUserId input db)) at 2
        by now rewrite E.
      replace (catch_block insufficient_balance_error)
        with (snd (payCoinsByUserId input db)) by now rewrite E.
      constructor.
    + replace ((coins s <=? 0) || (coins s <? pay_coins input)) with true
        by (symmetry; apply orb_true_iff; right; apply Z.ltb_lt; lia).
      cbn [throwW fst snd table].
      pose proof (pay_refused input db s Hs (or_intror Hlt)) as E.
      replace db with (fst (payCoinsByUserId input db)) at 2
        by now rewrite E.
      replace (catch_block insufficient_balance_error)
        with (snd (payCoinsByUserId input db)) by now rewrite E.
      constructor.
    + replace ((coins s <=? 0) || (coins s <? pay_coins input)) with false
        by (symmetry; apply orb_false_iff; split;
            [apply Z.leb_gt | apply Z.ltb_ge]; lia).
      cbn [retW]. unfold pay_commit_in, bindW.
      rewrite (call_spec _ _ H1). cbn [table events].
      destruct (next_fault (mkWorld db (tl evs))) as [f|] eqn:F1;
        [cbn [fst snd table]; constructor;
         apply in_tl; now apply (next_fault_in db)|].
      rewrite (update_coins_found _ _ db s Hs). cbn [fst snd].
      pose proof (undisturbed_tl db (tl evs) H1
                    (update_first
                       (selects (WhereDiscordId (du_id (sender input))))
                       (add_coins (- pay_coins input)) db)) as H2.
      rewrite (call_spec _ _ H2). cbn [table events].
      destruct (next_fault
                  (mkWorld
                     (update_first
                        (selects (WhereDiscordId (du_id (sender input))))
                        (add_coins (- pay_coins input)) db)
                     (tl (tl evs)))) as [f|] eqn:F2.
      * cbn [fst snd table].
        apply (RuntimeCases.pay_fault_after_debit _ _ _ s); auto; try lia.
        apply in_tl, in_tl. exact (next_fault_in _ _ _ F2).
      * pose proof (pay_accepted input db s Hs ltac:(lia) Hge) as E.
        rewrite (pay_commit_found input db s Hs) in E.
        fold (receiver_data input).
        destruct (upsert _ _ (receiver_data input) _) as [db2 [r|e]];
          cbn [fst snd table retW];
          match goal with
          | |- RuntimeCases.pay_in_case _ _ _ ?t ?o =>
              (replace t with (fst (payCoinsByUserId input db))
                by (now rewrite E));
              (replace o with (snd (payCoinsByUserId input db))
                by (now rewrite E))
          end; apply RuntimeCases.pay_as_router.
  - rewrite (call_spec _ _ H1). cbn [table events].
    destruct (next_fault (mkWorld db (tl evs))) as [f|] eqn:F1;
      [cbn [fst snd table]; constructor;
       apply in_tl; now apply (next_fault_in db)|].
    fold (sender_data input).
    destruct (existsb (breaks_unique (sender_data input)) db) eqn:Hfree.
    + pose proof (pay_unknown_sender_conflict input db Hs Hfree) as E.
      rewrite (create_conflict (sender_data input) 0 db eq_refl Hfree).
      cbn [fst snd table].
      replace db with (fst (payCoinsByUserId input db)) at 2
        by now rewrite E.
      match goal with
      | |- RuntimeCases.pay_in_case _ _ _ _ ?o =>
          replace o with (snd (payCoinsByUserId input db)) by now rewrite E
      end. constructor.
    + pose proof (pay_unknown_sender input db Hs Hfree) as E.
      rewrite (create_ok (sender_data input) 0 db eq_refl Hfree).
      cbn [fst snd table throwW].
      match goal with
      | |- RuntimeCases.pay_in_case _ _ _ ?t ?o =>
          (replace t with (fst (payCoinsByUserId input db))
            by (now rewrite E));
          (replace o with (snd (payCoinsByUserId input db))
            by (now rewrite E))
      end. apply RuntimeCases.pay_as_router.
Qed.

End RuntimeFacts.


(** ** The invariant of the ledger *)

Module LedgerInvariant.
Import Store StoreFacts PrismaFacts Router RouterFacts Cases RouterCases.
Import Runtime RuntimeFacts Fixtures.

(** C1, as stated, fails twice.  The router accepts a negative amount: a
    credit of -15 to a balance of 10 leaves -5.  And a transfer of a
    non-negative amount overdraws when another request writes between its
    read and its write: alice, with 10 coins, pays 10 while a second
    transfer of her 10 coins lands after the first one's check; she ends
    at -10. *)
Lemma credit_negative_amount_overdraws :
  all_non_negative [alice; bob]
  /\ balance (WhereDiscordId "100")
       (fst (run (SendByUser (mkSendByUser alice_discord (-15)))
               [alice; bob]))
     = Some (-5)
  /\ ~ all_non_negative
       (fst (run (SendByUser (mkSendByUser alice_discord (-15)))
               [alice; bob]))
  /\ amount_non_negative (Pay (mkPay bob_discord alice_discord 10))
  /\ balance (WhereDiscordId "100")
       (table
          (fst (run_in (Pay (mkPay bob_discord alice_discord 10))
                  (mkWorld [alice; bob]
                     [Quiet;
                      Meanwhile
                        (fun db =>
                           fst (payCoinsByUserId
                                  (mkPay bob_discord alice_discord 10) db))]))))
     = Some (-10).
Proof.
  split; [|split; [|split; [|split]]].
  - repeat constructor; unfold non_negative; cbn; lia.
  - reflexivity.
  - intros H. inversion H as [|u l Hu Hl]; subst.
    unfold non_negative in Hu. cbn in Hu. lia.
  - intros n [= <-]. lia.
  - reflexivity.
Qed.

(** C1 (amended): every ledger operation whose amount is not negative
    (credit through [sendCoinsByUserId] or [sendCoinsByGithubId], transfer
    through [payCoinsByUserId]), run while no other request writes to the
    table between its calls of the store, takes a table in which every
    balance is non-negative to a table in which every balance is
    non-negative, whether the store answers each call or fails some of
    them. *)
Theorem ledger_keeps_balances_non_negative :
  forall (op : LedgerOp) (w : World),
    amount_non_negative op ->
    undisturbed w ->
    all_non_negative (table w) ->
    all_non_negative (table (fst (run_in op w))).
Proof.
  intros op w Hamount Hw Hdb. unfold all_non_negative in *.
  destruct op as [i|i|i]; cbn [run_in].
  - rewrite sendCoinsByUserId_in_unfold.
    pose proof (call_keeps (Forall non_negative)
                  (upsert (WhereDiscordId (du_id (su_user i)))
                     (Some (su_coins i))
                     (discord_create_data (su_user i)
                        (setThumbnailUrl (su_user i)) (Some (su_coins i))))
                  w Hw Hdb) as H.
    destruct (call _ w) as [w' [u|e]]; apply H;
      apply upsert_non_negative; auto.
  - rewrite sendCoinsByGithubId_in_unfold.
    pose proof (call_keeps (Forall non_negative)
                  (upsert (WhereGithubId (gu_id (sg_user i)))
                     (Js.integer_of (Js.parseInt (sg_coins i)))
                     (github_create_data (sg_user i)
                        (Js.integer_of (Js.parseInt (sg_coins i)))))
                  w Hw Hdb) as H.
    destruct (call _ w) as [w' [u|e]]; apply H;
      apply upsert_non_negative; auto.
  - destruct (pay_in_cases i w Hw) as [f Hf| |s f Hf Hs Hpos Hle].
    + exact Hdb.
    + exact (LedgerProperties.run_keeps_balances_non_negative (Pay i)
               (table w) Hamount Hdb).
    + eapply Forall_update_first_found; eauto.
      unfold non_negative. rewrite coins_add_coins. lia.
Qed.

(** Alice pays bob 4 coins and the store fails the credit of bob. *)
Lemma ledger_keeps_balances_non_negative_witness :
  all_non_negative
    (table
       (fst (run_in (Pay (mkPay bob_discord alice_discord 4))
               (mkWorld [alice; bob]
                  [Quiet; Quiet; Fails InitializationFault])))).
Proof.
  apply ledger_keeps_balances_non_negative.
  - intros n [= <-]. lia.
  - reflexivity.
  - repeat constructor; unfold non_negative; cbn; lia.
Defined.

End LedgerInvariant.


(** ** The outcomes of the procedures when the store can fail *)

Module RuntimeExtras.
Import Store StoreFacts PrismaFacts Router RouterFacts Cases RouterCases.
Import Queries TableVocabulary TableFacts Runtime RuntimeFacts Fixtures.

Lemma router_transfer_outcomes input db :
  (exists r : User,
      snd (payCoinsByUserId input db)
      = Returns (mkEnvelope SUCCESS (data_receiver r)))
  \/ snd (payCoinsByUserId input db) = InsufficientBalance
  \/ snd (payCoinsByUserId input db) = DuplicateIdentity.
Proof.
  destruct (pay_cases input db) as [Hs Hu|Hs Hu|s Hs Hc|s res Hs Hpos Hle Hup];
    cbn [snd]; auto.
  destruct Hup; cbn [snd]; eauto.
Qed.

Lemma router_transfer_conserves_total input db :
  snd (payCoinsByUserId input db) <> DuplicateIdentity ->
  total (fst (payCoinsByUserId input db)) = total db.
Proof.
  destruct (pay_cases input db) as [Hs Hu|Hs Hu|s Hs Hc|s res Hs Hpos Hle Hup];
    cbn [fst snd]; intros Hout.
  - rewrite total_app. cbn. lia.
  - reflexivity.
  - reflexivity.
  - destruct Hup as [u Hu|Hr Hfree|Hr Hbusy]; cbn [fst snd] in *.
    + rewrite (total_update_first_found _ _ _ u Hu).
      rewrite (total_update_first_found _ _ _ s Hs). lia.
    + rewrite total_app, (total_update_first_found _ _ _ s Hs). cbn. lia.
    + now contradiction Hout.
Qed.

(** X1: run while no other request writes, a transfer ends in one of four
    ways: a success envelope carrying the receiver, the insufficient-balance
    error, the conflict error, or [undefined]; and it returns [undefined]
    only if the store failed one of its calls. *)
Theorem transfer_outcomes :
  forall (input : PayCoinsByUserIdInput) (w : World),
    undisturbed w ->
    ((exists r : User,
         snd (payCoinsByUserId_in input w)
         = Returns (mkEnvelope SUCCESS (data_receiver r)))
     \/ snd (payCoinsByUserId_in input w) = InsufficientBalance
     \/ snd (payCoinsByUserId_in input w) = DuplicateIdentity
     \/ snd (payCoinsByUserId_in input w) = ReturnsUndefined)
    /\ (snd (payCoinsByUserId_in input w) = ReturnsUndefined ->
        exists f : PrismaFault, In (Fails f) (events w))
    /\ (answered w -> snd (payCoinsByUserId_in input w) <> ReturnsUndefined).
Proof.
  intros input w Hw.
  assert (Hundef : snd (payCoinsByUserId_in input w) = ReturnsUndefined ->
                   exists f : PrismaFault, In (Fails f) (events w)).
  { destruct (pay_in_cases input w Hw) as [f Hf| |s f Hf Hs Hpos Hle];
      try (intros _; now exists f).
    intros H.
    destruct (router_transfer_outcomes input (table w)) as [[r E]|[E|E]];
      rewrite E in H; discriminate H. }
  split; [|split; [exact Hundef|]].
  - destruct (pay_in_cases input w Hw) as [f Hf| |s f Hf Hs Hpos Hle].
    + destruct (catch_fault f) as [-> | ->]; auto.
    + destruct (router_transfer_outcomes input (table w)) as [H|[H|H]]; auto.
    + destruct (catch_fault f) as [-> | ->]; auto.
  - intros Ha H. destruct (Hundef H) as (f & Hf).
    exact (answered_not_in w f Ha Hf).
Qed.

(** The store is unreachable at the first call of alice's payment. *)
Lemma transfer_outcomes_witness :
  exists f : PrismaFault,
    In (Fails f) [Fails InitializationFault].
Proof.
  exact (proj1 (proj2 (transfer_outcomes
                         (mkPay bob_discord alice_discord 4)
                         (mkWorld [alice; bob] [Fails InitializationFault])
                         eq_refl)) eq_refl).
Defined.

(** X2: run while no other request writes, a transfer that ends with a
    success envelope or with the insufficient-balance error leaves the sum
    of all balances as it was; when the store fails the credit of the
    receiver after the debit, the call ends with the conflict error or
    [undefined] and the amount has left the sum. *)
Theorem transfer_conserves_total :
  forall (input : PayCoinsByUserIdInput) (w : World),
    undisturbed w ->
    (snd (payCoinsByUserId_in input w) <> DuplicateIdentity ->
     snd (payCoinsByUserId_in input w) <> ReturnsUndefined ->
     total (table (fst (payCoinsByUserId_in input w))) = total (table w))
    /\ (forall (s : User) (f : PrismaFault),
           events w = [Quiet; Quiet; Fails f] ->
           lookup (WhereDiscordId (du_id (sender input))) (table w) = Some s ->
           0 < coins s -> pay_coins input <= coins s ->
           total (table (fst (payCoinsByUserId_in input w)))
           = total (table w) - pay_coins input
           /\ snd (payCoinsByUserId_in input w)
              = catch_block (exn_of_fault f)).
Proof.
  intros input w Hw. split.
  - destruct (pay_in_cases input w Hw) as [f Hf| |s f Hf Hs Hpos Hle].
    + reflexivity.
    + intros H _. now apply router_transfer_conserves_total.
    + intros H1 H2. destruct (catch_fault f) as [E|E]; congruence.
  - intros s f Hev Hs Hpos Hle. destruct w as [db evs].
    cbn [events] in Hev. cbn [table] in Hs. subst evs.
    assert (E : payCoinsByUserId_in input (mkWorld db [Quiet; Quiet; Fails f])
                = (mkWorld
                     (update_first
                        (selects (WhereDiscordId (du_id (sender input))))
                        (add_coins (- pay_coins input)) db) [],
                   catch_block (exn_of_fault f))).
    { unfold payCoinsByUserId_in, try_catch_in, bindW, pay_check_in, bindW.
      unfold call at 1. cbn [events table findUnique fst snd]. rewrite Hs.
      replace ((coins s <=? 0) || (coins s <? pay_coins input)) with false
        by (symmetry; apply orb_false_iff; split;
            [apply Z.leb_gt | apply Z.ltb_ge]; lia).
      cbn [retW]. unfold pay_commit_in, bindW, call.
      cbn [events table]. rewrite (update_coins_found _ _ db s Hs).
      reflexivity. }
    rewrite E. cbn [fst snd table]. split; [|reflexivity].
    rewrite (total_update_first_found _ _ _ s Hs). cbn [add_coins coins]. lia.
Qed.

(** Alice pays bob 4 coins; the store times out on bob's credit. *)
Lemma transfer_conserves_total_witness :
  total (table
           (fst (payCoinsByUserId_in (mkPay bob_discord alice_discord 4)
                   (mkWorld [alice; bob]
                      [Quiet; Quiet;
                       Fails (KnownRequestFault (OtherPrismaCode "P2024"))]))))
  = total [alice; bob] - 4.
Proof.
  assert (Hpos : 0 < coins alice) by (cbn; lia).
  assert (Hle : 4 <= coins alice) by (cbn; lia).
  exact (proj1 (proj2 (transfer_conserves_total
                         (mkPay bob_discord alice_discord 4)
                         (mkWorld [alice; bob]
                            [Quiet; Quiet;
                             Fails (KnownRequestFault
                                      (OtherPrismaCode "P2024"))])
                         eq_refl)
                  alice _ eq_refl eq_refl Hpos Hle)).
Defined.

Lemma sendCoinsByUserId_in_spec input w :
  undisturbed w ->
  sendCoinsByUserId_in input w
  = match next_fault w with
    | Some f => (mkWorld (table w) (tl (events w)),
                 catch_block (exn_of_fault f))
    | None => (mkWorld (fst (sendCoinsByUserId input (table w)))
                 (tl (events w)),
               snd (sendCoinsByUserId input (table w)))
    end.
Proof.
  intros H. rewrite sendCoinsByUserId_in_unfold, (call_spec _ _ H).
  destruct (next_fault w); [reflexivity|].
  rewrite sendCoinsByUserId_unfold.
  now destruct (upsert _ _ _ (table w)) as [db' [u|e]].
Qed.

Lemma sendCoinsByGithubId_in_spec input w :
  undisturbed w ->
  sendCoinsByGithubId_in input w
  = match next_fault w with
    | Some f => (mkWorld (table w) (tl (events w)),
                 catch_block (exn_of_fault f))
    | None => (mkWorld (fst (sendCoinsByGithubId input (table w)))
                 (tl (events w)),
               snd (sendCoinsByGithubId input (table w)))
    end.
Proof.
  intros H. rewrite sendCoinsByGithubId_in_unfold, (call_spec _ _ H).
  destruct (next_fault w); [reflexivity|].
  unfold sendCoinsByGithubId, try_catch, sendCoinsByGithubId_body, bind.
  now destruct (upsert _ _ _ (table w)) as [db' [u|e]].
Qed.

Lemma router_credit_outcomes input db :
  (exists u : User,
      snd (sendCoinsByUserId input db)
      = Returns (mkEnvelope SUCCESS (data_user u))
      /\ total (fst (sendCoinsByUserId input db)) = total db + su_coins input
      /\ getByDiscordId (du_id (su_user input))
           (fst (sendCoinsByUserId input db)) = Some u
      /\ In u (getAll (fst (sendCoinsByUserId input db))))
  \/ sendCoinsByUserId input db = (db, DuplicateIdentity).
Proof.
  rewrite sendCoinsByUserId_unfold.
  destruct (upsert_cases (WhereDiscordId (du_id (su_user input)))
              (su_coins input)
              (discord_create_data (su_user input)
                 (setThumbnailUrl (su_user input)) (Some (su_coins input)))
              (su_coins input) db eq_refl) as [u Hu|Hnone Hfree|Hnone Hbusy];
    cbn [fst snd].
  - left. exists (add_coins (su_coins input) u).
    assert (Hafter : lookup (WhereDiscordId (du_id (su_user input)))
                       (update_first
                          (selects (WhereDiscordId (du_id (su_user input))))
                          (add_coins (su_coins input)) db)
                     = Some (add_coins (su_coins input) u))
      by now apply lookup_after_update_same.
    repeat split.
    + now apply total_update_first_found with (u := u).
    + exact Hafter.
    + unfold getAll. apply find_some in Hafter. tauto.
  - left. eexists. repeat split.
    + rewrite total_app. cbn. lia.
    + unfold getByDiscordId, lookup. rewrite find_app_none by exact Hnone.
      cbn. now rewrite String.eqb_refl.
    + unfold getAll. apply in_or_app. right. now left.
  - right. reflexivity.
Qed.

Lemma router_github_credit_outcomes input db n :
  Js.integer_of (Js.parseInt (sg_coins input)) = Some n ->
  (exists u : User,
      snd (sendCoinsByGithubId input db)
      = Returns (mkEnvelope SUCCESS (data_user u))
      /\ total (fst (sendCoinsByGithubId input db)) = total db + n
      /\ lookup (WhereGithubId (gu_id (sg_user input)))
           (fst (sendCoinsByGithubId input db)) = Some u)
  \/ sendCoinsByGithubId input db = (db, DuplicateIdentity).
Proof.
  intros Hn. rewrite (sendCoinsByGithubId_unfold input db n Hn).
  destruct (upsert_cases (WhereGithubId (gu_id (sg_user input))) n
              (github_create_data (sg_user input) (Some n)) n db eq_refl)
    as [u Hu|Hnone Hfree|Hnone Hbusy]; cbn [fst snd].
  - left. exists (add_coins n u). repeat split.
    + now apply total_update_first_found with (u := u).
    + now apply lookup_after_update_same.
  - left. eexists. repeat split.
    + rewrite total_app. cbn. lia.
    + unfold lookup. rewrite find_app_none by exact Hnone.
      cbn. now rewrite String.eqb_refl.
  - right. reflexivity.
Qed.

(** X4: run while no other request writes, a credit through
    [sendCoinsByUserId] either succeeds, or leaves the table unchanged and
    ends with the conflict error or [undefined].  When it succeeds the sum
    of all balances has grown by exactly the amount, and the user of the
    response is the row [getByDiscordId] returns for that identifier
    afterwards, a member of what [getAll] returns.  It returns [undefined]
    only if the store failed the call. *)
Theorem credit_outcomes :
  forall (input : SendCoinsByUserIdInput) (w : World),
    undisturbed w ->
    ((exists u : User,
         snd (sendCoinsByUserId_in input w)
         = Returns (mkEnvelope SUCCESS (data_user u))
         /\ total (table (fst (sendCoinsByUserId_in input w)))
            = total (table w) + su_coins input
         /\ getByDiscordId (du_id (su_user input))
              (table (fst (sendCoinsByUserId_in input w))) = Some u
         /\ In u (getAll (table (fst (sendCoinsByUserId_in input w)))))
     \/ (table (fst (sendCoinsByUserId_in input w)) = table w
         /\ (snd (sendCoinsByUserId_in input w) = DuplicateIdentity
             \/ snd (sendCoinsByUserId_in input w) = ReturnsUndefined)))
    /\ (answered w ->
        snd (sendCoinsByUserId_in input w) <> ReturnsUndefined).
Proof.
  intros input w Hw. rewrite (sendCoinsByUserId_in_spec input w Hw). split.
  - destruct (next_fault w) as [f|]; cbn [fst snd table].
    + right. split; [reflexivity|apply catch_fault].
    + destruct (router_credit_outcomes input (table w)) as [H|H].
      * now left.
      * right. rewrite H. cbn [fst snd]. auto.
  - intros Ha. rewrite (answered_no_fault w Ha). cbn [snd].
    destruct (router_credit_outcomes input (table w))
      as [(u & H & _)|H]; rewrite H; cbn [snd]; discriminate.
Qed.

(** The store refuses the credit of dave with a time-out. *)
Lemma credit_outcomes_witness :
  table (fst (sendCoinsByUserId_in (mkSendByUser dave_discord 3)
                (mkWorld [alice; bob]
                   [Fails (KnownRequestFault (OtherPrismaCode "P2024"))])))
  = [alice; bob]
  /\ snd (sendCoinsByUserId_in (mkSendByUser dave_discord 3)
            (calm [alice; bob])) <> ReturnsUndefined.
Proof.
  split.
  - reflexivity.
  - exact (proj2 (credit_outcomes (mkSendByUser dave_discord 3)
                    (calm [alice; bob]) eq_refl) eq_refl).
Defined.

(** X5: run while no other request writes, a credit through
    [sendCoinsByGithubId] either succeeds, adding the number [parseInt]
    read to the sum of all balances, or leaves the table unchanged and ends
    with the conflict error or [undefined].  It succeeds only if [parseInt]
    made a finite number of the coins string; and when the store answers
    the call, it returns [undefined] exactly when [parseInt] made no finite
    number. *)
Theorem github_credit_outcomes :
  forall (input : SendCoinsByGithubIdInput) (w : World),
    undisturbed w ->
    ((exists (n : Z) (u : User),
         Js.parseInt (sg_coins input) = Js.Int n
         /\ snd (sendCoinsByGithubId_in input w)
            = Returns (mkEnvelope SUCCESS (data_user u))
         /\ total (table (fst (sendCoinsByGithubId_in input w)))
            = total (table w) + n
         /\ lookup (WhereGithubId (gu_id (sg_user input)))
              (table (fst (sendCoinsByGithubId_in input w))) = Some u)
     \/ (table (fst (sendCoinsByGithubId_in input w)) = table w
         /\ (snd (sendCoinsByGithubId_in input w) = DuplicateIdentity
             \/ snd (sendCoinsByGithubId_in input w) = ReturnsUndefined)))
    /\ (answered w ->
        (snd (sendCoinsByGithubId_in input w) = ReturnsUndefined
         <-> Js.integer_of (Js.parseInt (sg_coins input)) = None)).
Proof.
  intros input w Hw. rewrite (sendCoinsByGithubId_in_spec input w Hw). split.
  - destruct (next_fault w) as [f|]; cbn [fst snd table].
    + right. split; [reflexivity|apply catch_fault].
    + destruct (Js.integer_of (Js.parseInt (sg_coins input))) as [n|] eqn:Hn.
      * destruct (router_github_credit_outcomes input (table w) n Hn)
          as [(u & H)|H].
        -- left. exists n, u. split; [now apply integer_of_some|exact H].
        -- right. rewrite H. cbn [fst snd]. auto.
      * right. rewrite (sendCoinsByGithubId_nan input (table w) Hn).
        cbn [fst snd]. auto.
  - intros Ha. rewrite (answered_no_fault w Ha). cbn [snd].
    destruct (Js.integer_of (Js.parseInt (sg_coins input))) as [n|] eqn:Hn.
    + split; [|discriminate].
      destruct (router_github_credit_outcomes input (table w) n Hn)
        as [(u & H & _)|H]; rewrite H; cbn [snd]; discriminate.
    + rewrite (sendCoinsByGithubId_nan input (table w) Hn). now split.
Qed.

(** A credit of [abc] coins to carol, the store answering. *)
Lemma github_credit_outcomes_witness :
  snd (sendCoinsByGithubId_in (mkSendByGithub carol_github "abc")
         (calm [alice; bob])) = ReturnsUndefined.
Proof.
  exact (proj2 (proj2 (github_credit_outcomes
                         (mkSendByGithub carol_github "abc")
                         (calm [alice; bob]) eq_refl) eq_refl) eq_refl).
Defined.

End RuntimeExtras.
